(** * Voice-chat queueing and streaming orchestration

    A shallow embedding of [heroku/modules/voicechat.py]: the per-chat
    playback queues ([QueueManager]), their persistence, the temporary
    file manager and the source resolvers, the PyTgCalls streaming backend
    and the [_play_next] orchestration loop, together with the properties
    the design document states about them.

    Conventions of the embedding.
    - Python [int] is [Z]; [str] is [string]; a [dict] used as a map is a
      [gmap]; a [dict] whose order and raw keys matter (the persisted
      record) is an association list.
    - A Python call that may raise returns a [result]; the state it
      reached before raising is kept next to it, as the interpreter does.
    - [time.time()] is an argument [now]; timestamps are clock readings
      that nothing computes with, kept as [Z].
    - The file system, the HTTP peer, yt-dlp and the PyTgCalls library are
      oracles passed as arguments.
    - [logging] calls have no effect on the program and are left out,
      except in the backend, whose log lines carry the failure reason. *)

From Stdlib Require Import ZArith Ascii String DecimalString DecimalZ.
From stdpp Require Import gmap strings list fin_maps.

Local Open Scope string_scope.
Local Open Scope list_scope.
Local Open Scope Z_scope.

(** ** Python values *)

Inductive exn : Type :=
  | IndexError
  | TypeError
  | ValueError
  | ImportError
  | AttributeError
  | RuntimeError.

Inductive result (A : Type) : Type :=
  | Return (a : A)
  | Raise (e : exn).
Arguments Return {A} a.
Arguments Raise {A} e.

(** [l[i]] on a Python list: negative indices count from the end, an index
    outside [-len, len) raises [IndexError]. *)
Definition py_getitem {A} (l : list A) (i : Z) : result A :=
  let n := Z.of_nat (length l) in
  let j := if 0 <=? i then i else n + i in
  if (0 <=? j) && (j <? n) then
    match l !! Z.to_nat j with
    | Some x => Return x
    | None => Raise IndexError
    end
  else Raise IndexError.

(** [str(n)] for an [int]. *)
Definition py_str (n : Z) : string := NilZero.string_of_int (Z.to_int n).

(** [int(s)] for a [str], on plain decimal literals (an optional [-] and
    digits).  Python also accepts surrounding blanks, a [+] sign,
    underscores between digits and the decimal digits of other scripts;
    those forms are outside this fragment and read as [ValueError] here.
    [str] never produces them. *)
Definition py_int (s : string) : result Z :=
  match NilZero.int_of_string s with
  | Some d => Return (Z.of_int d)
  | None => Raise ValueError
  end.

(** ** QueueItem *)

Record QueueItem : Type := mkQueueItem {
  file_path : string;
  title : string;
  duration : Z;
  is_video : bool;
  source_type : string;
  added_by : Z;
  timestamp : Z
}.

#[global] Instance QueueItem_eq_dec : EqDecision QueueItem.
Proof. solve_decision. Defined.

(** [item.timestamp = t] *)
Definition set_timestamp (t : Z) (item : QueueItem) : QueueItem :=
  {| file_path := file_path item; title := title item;
     duration := duration item; is_video := is_video item;
     source_type := source_type item; added_by := added_by item;
     timestamp := t |}.

(** ** QueueManager *)

Record QueueManager : Type := mkQueueManager {
  _queues : gmap Z (list QueueItem);
  _current_playing : gmap Z Z;
  _repeat_mode : gmap Z bool
}.

(** [QueueManager.__init__] *)
Definition QueueManager_init : QueueManager :=
  {| _queues := ∅; _current_playing := ∅; _repeat_mode := ∅ |}.

Definition with_queues (qs : gmap Z (list QueueItem)) (qm : QueueManager) :=
  {| _queues := qs; _current_playing := _current_playing qm;
     _repeat_mode := _repeat_mode qm |}.

Definition with_current_playing (cp : gmap Z Z) (qm : QueueManager) :=
  {| _queues := _queues qm; _current_playing := cp;
     _repeat_mode := _repeat_mode qm |}.

Definition with_repeat_mode (rm : gmap Z bool) (qm : QueueManager) :=
  {| _queues := _queues qm; _current_playing := _current_playing qm;
     _repeat_mode := rm |}.

(** [self._queues.get(chat_id, [])] *)
Definition get_queue (qm : QueueManager) (chat_id : Z) : list QueueItem :=
  default [] (_queues qm !! chat_id).

(** [self._current_playing.get(chat_id, 0)] *)
Definition current_index (qm : QueueManager) (chat_id : Z) : Z :=
  default 0 (_current_playing qm !! chat_id).

(** [self._repeat_mode.get(chat_id, False)] *)
Definition is_repeat_enabled (qm : QueueManager) (chat_id : Z) : bool :=
  default false (_repeat_mode qm !! chat_id).

Definition nonempty {A} (l : list A) : bool :=
  match l with [] => false | _ :: _ => true end.

(** The guard [0 <= current_index < len(queue)] keeps the subscript in
    range, so [get_current] never raises. *)
Definition get_current (qm : QueueManager) (chat_id : Z) : option QueueItem :=
  let queue := get_queue qm chat_id in
  let ci := current_index qm chat_id in
  if nonempty queue && (0 <=? ci) && (ci <? Z.of_nat (length queue)) then
    match py_getitem queue ci with
    | Return x => Some x
    | Raise _ => None
    end
  else None.

(** [next_item] stores the new index before it subscripts the queue, so
    the store is kept when the subscript raises. *)
Definition next_item (qm : QueueManager) (chat_id : Z)
  : result (option QueueItem) * QueueManager :=
  let queue := get_queue qm chat_id in
  if negb (nonempty queue) then (Return None, qm)
  else
    let ci := current_index qm chat_id in
    let next_index := ci + 1 in
    let go (next_index : Z) :=
      let qm' :=
        with_current_playing (<[chat_id := next_index]> (_current_playing qm)) qm in
      match py_getitem queue next_index with
      | Return x => (Return (Some x), qm')
      | Raise e => (Raise e, qm')
      end in
    if Z.of_nat (length queue) <=? next_index then
      if is_repeat_enabled qm chat_id then go 0
      else (Return None, qm)
    else go next_index.

(** [add_item] stamps the entry it is given and appends that same entry;
    it returns the new length of the queue.  The queues hold values: when
    the object passed is one that is queued already, the source stamps it
    in place there as well, which the value kept here does not show. *)
Definition add_item (qm : QueueManager) (chat_id : Z) (item : QueueItem)
    (now : Z) : Z * QueueManager :=
  let queue := get_queue qm chat_id ++ [set_timestamp now item] in
  (Z.of_nat (length queue), with_queues (<[chat_id := queue]> (_queues qm)) qm).

Definition clear_queue (qm : QueueManager) (chat_id : Z) : QueueManager :=
  with_current_playing (delete chat_id (_current_playing qm))
    (with_queues (delete chat_id (_queues qm)) qm).

Definition set_repeat (qm : QueueManager) (chat_id : Z) (enabled : bool)
  : QueueManager :=
  with_repeat_mode (<[chat_id := enabled]> (_repeat_mode qm)) qm.

(** The cursor indexes the queue when there are items. *)
Definition cursor_in_range (qm : QueueManager) (chat_id : Z) : Prop :=
  get_queue qm chat_id ≠ [] →
  0 <= current_index qm chat_id < Z.of_nat (length (get_queue qm chat_id)).

(** The data model's invariant on one destination: the cursor indexes the
    queue when there are items, and is 0 (unset or stored) when there are
    none. *)
Definition cursor_ok (qm : QueueManager) (chat_id : Z) : Prop :=
  let queue := get_queue qm chat_id in
  let ci := current_index qm chat_id in
  (queue ≠ [] → 0 <= ci < Z.of_nat (length queue)) ∧
  (queue = [] → ci = 0).

(** The operations of the queue store, as a caller issues them. *)
Inductive queue_op : Type :=
  | OpAppend (chat_id : Z) (item : QueueItem) (now : Z)
  | OpCurrent (chat_id : Z)
  | OpAdvance (chat_id : Z)
  | OpClear (chat_id : Z).

Definition run_op (o : queue_op) (qm : QueueManager) : QueueManager :=
  match o with
  | OpAppend d item now => (add_item qm d item now).2
  | OpCurrent d => let _ := get_current qm d in qm
  | OpAdvance d => (next_item qm d).2
  | OpClear d => clear_queue qm d
  end.

(** ** Persistence of the queues *)

(** A persisted item is the [dict] that [asdict] produces and that
    [QueueItem.from_dict] reads back as keyword arguments of [cls].  A key that is
    missing is [None]; [d_unknown] lists keys that name no field. *)
Record ItemData : Type := mkItemData {
  d_file_path : option string;
  d_title : option string;
  d_duration : option Z;
  d_is_video : option bool;
  d_source_type : option string;
  d_added_by : option Z;
  d_timestamp : option Z;
  d_unknown : list string
}.

Definition to_dict (item : QueueItem) : ItemData :=
  {| d_file_path := Some (file_path item); d_title := Some (title item);
     d_duration := Some (duration item); d_is_video := Some (is_video item);
     d_source_type := Some (source_type item);
     d_added_by := Some (added_by item);
     d_timestamp := Some (timestamp item); d_unknown := [] |}.

(** [cls] applied to the keys of [data]: an unknown key, or no [file_path] or [title], is a
    [TypeError]; the other fields have the dataclass defaults. *)
Definition from_dict (data : ItemData) : result QueueItem :=
  match d_unknown data, d_file_path data, d_title data with
  | [], Some fp, Some t =>
      Return {| file_path := fp; title := t;
                duration := default 0 (d_duration data);
                is_video := default false (d_is_video data);
                source_type := default "unknown" (d_source_type data);
                added_by := default 0 (d_added_by data);
                timestamp := default 0 (d_timestamp data) |}
  | _, _, _ => Raise TypeError
  end.

(** [[QueueItem.from_dict(x) for x in xs]] *)
Fixpoint from_dict_list (xs : list ItemData) : result (list QueueItem) :=
  match xs with
  | [] => Return []
  | x :: xs' =>
      match from_dict x with
      | Raise e => Raise e
      | Return item =>
          match from_dict_list xs' with
          | Raise e => Raise e
          | Return items => Return (item :: items)
          end
      end
  end.

(** The record of one destination; each key may be missing. *)
Record QueueData : Type := mkQueueData {
  qd_items : option (list ItemData);
  qd_current : option Z;
  qd_repeat : option bool
}.

(** The value kept under [("VoiceChatNative", "queues")]: a [dict] from
    [str(chat_id)] to the record, in insertion order. *)
Definition Persisted : Type := list (string * QueueData).

(** Modelled from the spec: the host's persistent key/value store, which
    is not among these sources, reduced to the one cell this module uses.
    A value set is the value got; [None] is a cell never written, for
    which [db.get] yields its default. *)
Definition Database : Type := option Persisted.

(** The loop body of [load_queues]; an exception leaves the loop with the
    destinations loaded so far. *)
Fixpoint load_entries (data : Persisted) (qm : QueueManager) : QueueManager :=
  match data with
  | [] => qm
  | (chat_id_str, queue_data) :: rest =>
      match py_int chat_id_str with
      | Raise _ => qm
      | Return chat_id =>
          match from_dict_list (default [] (qd_items queue_data)) with
          | Raise _ => qm
          | Return items =>
              load_entries rest
                {| _queues := <[chat_id := items]> (_queues qm);
                   _current_playing :=
                     <[chat_id := default 0 (qd_current queue_data)]>
                       (_current_playing qm);
                   _repeat_mode :=
                     <[chat_id := default false (qd_repeat queue_data)]>
                       (_repeat_mode qm) |}
          end
      end
  end.

Definition load_queues (qm : QueueManager) (db : Database) : QueueManager :=
  load_entries (default [] db) qm.

(** One turn of the loop of [save_queues]: only a non-empty queue yields a
    record. *)
Definition save_entry (qm : QueueManager) (kv : Z * list QueueItem)
  : option (string * QueueData) :=
  if nonempty kv.2 then
    Some (py_str kv.1,
          {| qd_items := Some (to_dict <$> kv.2);
             qd_current := Some (current_index qm kv.1);
             qd_repeat := Some (is_repeat_enabled qm kv.1) |})
  else None.

(** The [data] that [save_queues] builds.  The order of the records is the
    order in which the map is listed; nothing below depends on it. *)
Definition save_data (qm : QueueManager) : Persisted :=
  omap (save_entry qm) (map_to_list (_queues qm)).

(** [db.set] is taken to succeed; it replaces the cell. *)
Definition save_queues (qm : QueueManager) (db : Database) : Database :=
  Some (save_data qm).

(** ** Strings *)

(** [pat in s] *)
Fixpoint str_in (pat s : string) : bool :=
  String.prefix pat s ||
  match s with
  | EmptyString => false
  | String _ s' => str_in pat s'
  end.

(** [s.endswith(suf)] *)
Definition endswith (s suf : string) : bool :=
  let n := String.length s in
  let k := String.length suf in
  (k <=? n)%nat && String.eqb (String.substring (n - k) k s) suf.

(** [c.lower()] on one ASCII character. *)
Definition ascii_lower (c : Ascii.ascii) : Ascii.ascii :=
  let n := Ascii.nat_of_ascii c in
  if (65 <=? n)%nat && (n <=? 90)%nat then Ascii.ascii_of_nat (n + 32) else c.

(** [s.lower()], for ASCII text such as a header value. *)
Fixpoint lower (s : string) : string :=
  match s with
  | EmptyString => EmptyString
  | String c s' => String (ascii_lower c) (lower s')
  end.

Fixpoint drop_chars (n : nat) (s : string) : string :=
  match n, s with
  | O, _ => s
  | S n', String _ s' => drop_chars n' s'
  | S _, EmptyString => EmptyString
  end.

(** [s.replace(old, new)] for a non-empty [old], scanning left to right;
    [fuel] bounds the scan and [String.length s] is enough. *)
Fixpoint replace_fuel (fuel : nat) (old new s : string) : string :=
  match fuel with
  | O => s
  | S fuel' =>
      match s with
      | EmptyString => EmptyString
      | String c s' =>
          if String.prefix old s
          then (new ++ replace_fuel fuel' old new
                         (drop_chars (String.length old) s))%string
          else String c (replace_fuel fuel' old new s')
      end
  end.

Definition replace (old new s : string) : string :=
  replace_fuel (String.length s) old new s.

(** [s.split(sep)[-1]]: what follows the last [sep]. *)
Fixpoint split_last (sep : Ascii.ascii) (s : string) : string :=
  match s with
  | EmptyString => EmptyString
  | String c s' =>
      if Ascii.eqb c sep then split_last sep s'
      else if str_in (String sep EmptyString) s' then split_last sep s'
      else s
  end.

(** [s.split(sep)[0]]: what precedes the first [sep]. *)
Fixpoint split_first (sep : Ascii.ascii) (s : string) : string :=
  match s with
  | EmptyString => EmptyString
  | String c s' =>
      if Ascii.eqb c sep then EmptyString else String c (split_first sep s')
  end.

(** ** Integer literals *)

(** Whether some character of [s] satisfies [p]. *)
Fixpoint any_char (p : Ascii.ascii → bool) (s : string) : bool :=
  match s with
  | EmptyString => false
  | String c s' => p c || any_char p s'
  end.

(** ASCII characters that occur in no text [int] reads in base 10: every
    ASCII character but the digits, the two signs, the underscore and the
    blanks that [int] strips (tab to carriage return, the space).  The
    separators 28 to 31, blanks for [str.isspace], are not judged here,
    nor are the bytes above 127: they are parts of characters of other
    scripts, some of which are digits or blanks. *)
Definition outside_int_literal (c : Ascii.ascii) : bool :=
  let n := N_of_ascii c in
  ((n <? 128)%N
   && negb ((48 <=? n)%N && (n <=? 57)%N)
   && negb ((n =? 43)%N || (n =? 45)%N || (n =? 95)%N)
   && negb (((9 <=? n)%N && (n <=? 13)%N) || ((28 <=? n)%N && (n <=? 32)%N))).

(** ** Temporary files *)

(** The part of the machine the resolvers touch: the paths that exist on
    disk and the paths [TempFileManager] tracks. *)
Record Store : Type := mkStore {
  disk : gset string;
  _temp_files : gset string
}.

(** The operating system's side of [NamedTemporaryFile] and [glob]:
    [tmp_name] is the name chosen for a new file with the given suffix,
    on a disk with the given paths; [listing] is the order in which a
    directory scan reports paths. *)
Record OS : Type := mkOS {
  tmp_name : gset string → string → string;
  listing : gset string → list string
}.

(** [os.path.exists]; the empty path never exists. *)
Definition path_exists (fs : gset string) (path : string) : bool :=
  negb (String.eqb path "") && bool_decide (path ∈ fs).

(** The store after a temporary file of that name was created. *)
Definition create_temp_file_store (st : Store) (temp_file : string) : Store :=
  {| disk := {[temp_file]} ∪ disk st;
     _temp_files := {[temp_file]} ∪ _temp_files st |}.

(** [NamedTemporaryFile(suffix=suffix, delete=False)] creates the file;
    the manager then tracks its name. *)
Definition create_temp_file (os : OS) (st : Store) (suffix : string)
  : string * Store :=
  let temp_file := tmp_name os (disk st) suffix in
  (temp_file, create_temp_file_store st temp_file).

(** [os.unlink] is taken to succeed on an existing path. *)
Definition cleanup_file (st : Store) (path : string) : Store :=
  {| disk := if path_exists (disk st) path then disk st ∖ {[path]} else disk st;
     _temp_files := _temp_files st ∖ {[path]} |}.

Definition cleanup_all (st : Store) : Store :=
  let st' := foldl cleanup_file st (elements (_temp_files st)) in
  {| disk := disk st'; _temp_files := ∅ |}.

(** The handler shared by the resolvers:
    [if temp_file and os.path.exists(temp_file): cleanup_file(temp_file)]. *)
Definition cleanup_on_error (st : Store) (temp_file : option string) : Store :=
  match temp_file with
  | Some f =>
      if negb (String.eqb f "") && path_exists (disk st) f
      then cleanup_file st f else st
  | None => st
  end.

(** ** Source resolvers *)

(** The [metadata] dict the commands pass along. *)
Record Metadata : Type := mkMetadata {
  md_user_id : option Z;
  md_title : option string;
  md_is_video : option bool
}.

(** [metadata.get('user_id', 0) if metadata else 0].  A dict is falsy when
    it has no key at all. *)
Definition metadata_truthy (m : Metadata) : bool :=
  match md_user_id m, md_title m, md_is_video m with
  | None, None, None => false
  | _, _, _ => true
  end.

Definition metadata_user_id (metadata : option Metadata) : Z :=
  match metadata with
  | Some m => if metadata_truthy m then default 0 (md_user_id m) else 0
  | None => 0
  end.

(** The module-level flags set at import time. *)
Record Capabilities : Type := mkCapabilities {
  YT_DLP_AVAILABLE : bool;
  FFMPEG_AVAILABLE : bool
}.

(** What [extract_info] reports; a missing key is [None]. *)
Record YtInfo : Type := mkYtInfo {
  info_title : option string;
  info_duration : option Z
}.

(** yt-dlp as the resolver uses it: the probe, and the download, which
    writes files named by the output template with the extensions given
    and may then raise. *)
Record YoutubeDL : Type := mkYoutubeDL {
  extract_info : string → result YtInfo;
  download : string → list string * result unit
}.

(** [glob.glob(f"{base_path}.*")]: the paths that extend [base_path] by a
    dot and a name within the same directory. *)
Definition glob_dot (os : OS) (fs : gset string) (base_path : string)
  : list string :=
  let pat := (base_path ++ ".")%string in
  filter (λ p, Is_true (String.prefix pat p &&
                         negb (str_in "/" (drop_chars (String.length pat) p))))
         (listing os fs).

Definition YouTubeSourceResolver_resolve (caps : Capabilities) (os : OS)
    (ydl : YoutubeDL) (st : Store) (url : string)
    (metadata : option Metadata) : option QueueItem * Store :=
  if negb (YT_DLP_AVAILABLE caps) then (None, st)
  else if negb (FFMPEG_AVAILABLE caps) then (None, st)
  else
    let '(temp_file, st1) := create_temp_file os st ".mp3" in
    let outtmpl_base := replace ".mp3" "" temp_file in
    match extract_info ydl url with
    | Raise _ => (None, cleanup_on_error st1 (Some temp_file))
    | Return info =>
        let title := default "Unknown" (info_title info) in
        let duration := default 0 (info_duration info) in
        if 3600 <? duration then (None, st1)
        else
          let '(exts, outcome) := download ydl url in
          let written :=
            list_to_set ((λ ext, (outtmpl_base ++ "." ++ ext)%string) <$> exts) in
          let st2 := {| disk := written ∪ disk st1;
                        _temp_files := _temp_files st1 |} in
          match outcome with
          | Raise _ => (None, cleanup_on_error st2 (Some temp_file))
          | Return _ =>
              let downloaded_files := glob_dot os (disk st2) outtmpl_base in
              let '(actual_file, st3) :=
                match downloaded_files with
                | f :: _ =>
                    if negb (endswith f ".mp3") then
                      (temp_file,
                       {| disk := {[temp_file]} ∪ (disk st2 ∖ {[f]});
                          _temp_files := _temp_files st2 |})
                    else (f, st2)
                | [] => (temp_file, st2)
                end in
              (Some {| file_path := actual_file; title := title;
                       duration := duration; is_video := false;
                       source_type := "youtube";
                       added_by := metadata_user_id metadata;
                       timestamp := 0 |}, st3)
          end
    end.

(** The answer to a [HEAD] request; a missing header is [None]. *)
Record HeadResponse : Type := mkHeadResponse {
  head_status : Z;
  head_content_length : option string;
  head_content_type : option string
}.

(** The answer to a [GET] request: the status, the sizes of the chunks
    that [iter_chunked] delivers, and whether the transfer breaks off
    with an error after them. *)
Record GetResponse : Type := mkGetResponse {
  get_status : Z;
  get_chunks : list Z;
  get_broken : bool
}.

(** The HTTP peer, and whether [import aiohttp] succeeds. *)
Record Http : Type := mkHttp {
  aiohttp_installed : bool;
  http_head : string → result HeadResponse;
  http_get : string → result GetResponse
}.

(** The download loop: [true] when every chunk was written, [false] when
    the running total passed [max_size] or the transfer broke off. *)
Fixpoint write_chunks (max_size downloaded_size : Z) (chunks : list Z)
    (broken : bool) : bool :=
  match chunks with
  | [] => negb broken
  | len_chunk :: rest =>
      let downloaded_size := downloaded_size + len_chunk in
      if max_size <? downloaded_size then false
      else write_chunks max_size downloaded_size rest broken
  end.

(** The outcome of the [HEAD] block: leave the function with [None], or go
    on with a content type.  The size is compared in megabytes as a float
    in the source; that quotient exceeds 100 exactly when the integer
    exceeds 100 * 1024 * 1024. *)
Inductive head_outcome : Type :=
  | HeadReject
  | HeadProceed (content_type : string).

Definition head_check (http : Http) (url : string) : head_outcome :=
  match http_head http url with
  | Raise _ => HeadProceed ""
  | Return r =>
      if negb (head_status r =? 200) then HeadReject
      else
        let proceed := HeadProceed (lower (default "" (head_content_type r))) in
        match head_content_length r with
        | Some cl =>
            if String.eqb cl "" then proceed
            else
              match py_int cl with
              | Raise _ => HeadProceed ""
              | Return n =>
                  if 100 * (1024 * 1024) <? n then HeadReject else proceed
              end
        | None => proceed
        end
  end.

(** The suffix chosen from the content type; [""] is the call without a
    suffix. *)
Definition suffix_of_content_type (content_type : string) : string :=
  if str_in "audio" content_type then
    if str_in "mp3" content_type then ".mp3"
    else if str_in "ogg" content_type then ".ogg"
    else ".m4a"
  else if str_in "video" content_type then
    if str_in "mp4" content_type then ".mp4" else ".mkv"
  else "".

Definition url_title (url : string) (metadata : option Metadata) : string :=
  let given :=
    match metadata with
    | Some m => if metadata_truthy m then md_title m else None
    | None => None
    end in
  match given with
  | Some (String c t) => String c t
  | _ =>
      let t := split_last "/"%char url in
      let t := if str_in "?" t then split_first "?"%char t else t in
      if String.eqb t "" || String.eqb t "/" then "Downloaded Media" else t
  end.

Definition DirectURLSourceResolver_resolve (os : OS) (http : Http)
    (st : Store) (url : string) (metadata : option Metadata)
  : option QueueItem * Store :=
  if negb (aiohttp_installed http) then (None, cleanup_on_error st None)
  else
    match head_check http url with
    | HeadReject => (None, st)
    | HeadProceed content_type =>
        let is_video := str_in "video" content_type in
        let '(temp_file, st1) :=
          create_temp_file os st (suffix_of_content_type content_type) in
        let max_size := 100 * 1024 * 1024 in
        match http_get http url with
        | Raise _ => (None, cleanup_on_error st1 (Some temp_file))
        | Return response =>
            if get_status response =? 200 then
              if write_chunks max_size 0 (get_chunks response)
                   (get_broken response)
              then
                (Some {| file_path := temp_file;
                         title := url_title url metadata;
                         duration := 0; is_video := is_video;
                         source_type := "url";
                         added_by := metadata_user_id metadata;
                         timestamp := 0 |}, st1)
              else (None, cleanup_on_error st1 (Some temp_file))
            else (None, st1)
        end
    end.

(** ** Streaming backend *)

(** The entry of [active_calls] for one chat. *)
Record CallInfo : Type := mkCallInfo {
  joined_at : Z;
  current_stream : option string;
  is_paused : bool
}.

(** The stream descriptors handed to PyTgCalls, with the quality the
    parameters are built from. *)
Inductive Stream : Type :=
  | AudioPiped (path : string) (audio_quality : string)
  | VideoPiped (path : string) (video_quality audio_quality : string).

(** The calls the backend issues to PyTgCalls. *)
Inductive LibCall : Type :=
  | join_group_call (chat_id : Z) (stream : Stream)
  | change_stream (chat_id : Z) (stream : Stream)
  | leave_group_call (chat_id : Z).

(** PyTgCalls as the backend sees it: whether [pytgcalls.types] imports,
    and for each call, given the calls issued before it, whether it
    returns or raises. *)
Record PyTgCalls : Type := mkPyTgCalls {
  import_types : result unit;
  invoke : list LibCall → LibCall → result unit
}.

(** The lines the backend logs. *)
Inductive LogLine : Type :=
  | LogNotInitialized
  | LogMediaFileNotFound (path : string)
  | LogApiError (e : exn)
  | LogStartedPlaying (path : string) (chat_id : Z)
  | LogFailedToPlay (chat_id : Z) (e : exn)
  | LogLeaveWarning (e : exn)
  | LogLeft (chat_id : Z)
  | LogStopped (chat_id : Z).

(** The backend object.  [has_pytgcalls] is [self.pytgcalls is not None];
    [issued] records, oldest first, the calls that reached the library;
    [log] is the log, oldest first. *)
Record Backend : Type := mkBackend {
  is_initialized : bool;
  has_pytgcalls : bool;
  active_calls : gmap Z CallInfo;
  issued : list LibCall;
  log : list LogLine
}.

Definition with_active_calls (ac : gmap Z CallInfo) (b : Backend) : Backend :=
  {| is_initialized := is_initialized b; has_pytgcalls := has_pytgcalls b;
     active_calls := ac; issued := issued b; log := log b |}.

Definition logging (line : LogLine) (b : Backend) : Backend :=
  {| is_initialized := is_initialized b; has_pytgcalls := has_pytgcalls b;
     active_calls := active_calls b; issued := issued b;
     log := log b ++ [line] |}.

(** [await self.pytgcalls.m(...)]: on a missing object the attribute
    access raises and nothing reaches the library. *)
Definition call_lib (lib : PyTgCalls) (b : Backend) (c : LibCall)
  : result unit * Backend :=
  if has_pytgcalls b then
    (invoke lib (issued b) c,
     {| is_initialized := is_initialized b; has_pytgcalls := has_pytgcalls b;
        active_calls := active_calls b; issued := issued b ++ [c];
        log := log b |})
  else (Raise AttributeError, b).

(** A string is truthy when it is not empty. *)
Definition str_truthy (s : option string) : bool :=
  match s with
  | Some (String _ _) => true
  | _ => false
  end.

(** [chat_id in self.active_calls and
     self.active_calls[chat_id].get('current_stream')] *)
Definition has_active_stream (b : Backend) (chat_id : Z) : bool :=
  match active_calls b !! chat_id with
  | Some info => str_truthy (current_stream info)
  | None => false
  end.

Definition make_stream (file_path : string) (is_video : bool)
    (quality : string) : Stream :=
  if is_video then VideoPiped file_path "medium" "medium"
  else AudioPiped file_path quality.

Definition is_import_or_attribute_error (e : exn) : bool :=
  match e with
  | ImportError | AttributeError => true
  | _ => false
  end.

Definition play_media (lib : PyTgCalls) (fs : gset string) (now : Z)
    (b : Backend) (chat_id : Z) (file_path : string) (is_video : bool)
    (quality : string) : bool * Backend :=
  if negb (is_initialized b) then (false, logging LogNotInitialized b)
  else if negb (path_exists fs file_path)
  then (false, logging (LogMediaFileNotFound file_path) b)
  else
    let failed (e : exn) (b' : Backend) :=
      if is_import_or_attribute_error e
      then (false, logging (LogApiError e) b')
      else (false, logging (LogFailedToPlay chat_id e) b') in
    let started (b' : Backend) :=
      let b'' :=
        match active_calls b' !! chat_id with
        | Some info =>
            with_active_calls
              (<[chat_id := {| joined_at := joined_at info;
                               current_stream := Some file_path;
                               is_paused := false |}]> (active_calls b')) b'
        | None => b'
        end in
      (true, logging (LogStartedPlaying file_path chat_id) b'') in
    match import_types lib with
    | Raise e => failed e b
    | Return _ =>
        let stream := make_stream file_path is_video quality in
        if has_active_stream b chat_id then
          match call_lib lib b (change_stream chat_id stream) with
          | (Raise e, b1) => failed e b1
          | (Return _, b1) => started b1
          end
        else
          match call_lib lib b (join_group_call chat_id stream) with
          | (Raise e, b1) => failed e b1
          | (Return _, b1) =>
              started
                (with_active_calls
                   (<[chat_id := {| joined_at := now;
                                    current_stream := Some file_path;
                                    is_paused := false |}]> (active_calls b1))
                   b1)
          end
    end.

(** Whatever [leave_group_call] does, the entry is dropped and the result
    is [True]. *)
Definition leave_voice_chat (lib : PyTgCalls) (b : Backend) (chat_id : Z)
  : bool * Backend :=
  match active_calls b !! chat_id with
  | None => (true, b)
  | Some _ =>
      let b1 :=
        match call_lib lib b (leave_group_call chat_id) with
        | (Raise e, b') => logging (LogLeaveWarning e) b'
        | (Return _, b') => b'
        end in
      (true,
       logging (LogLeft chat_id)
         (with_active_calls (delete chat_id (active_calls b1)) b1))
  end.

(** The result of the inner [leave_voice_chat] is not looked at. *)
Definition stop_stream (lib : PyTgCalls) (b : Backend) (chat_id : Z)
  : bool * Backend :=
  match active_calls b !! chat_id with
  | None => (false, b)
  | Some _ =>
      let '(_, b1) := leave_voice_chat lib b chat_id in
      (true, logging (LogStopped chat_id) b1)
  end.

Definition is_in_call (b : Backend) (chat_id : Z) : bool :=
  bool_decide (is_Some (active_calls b !! chat_id)).

Definition is_playing (b : Backend) (chat_id : Z) : bool :=
  match active_calls b !! chat_id with
  | Some info => str_truthy (current_stream info) && negb (is_paused info)
  | None => false
  end.

(** ** Orchestration *)

(** [_play_next].  The recursion of the source has no counter; [fuel]
    bounds the depth to which it is unfolded here.  The result is the
    number of entries tried, and the state reached if the call returned
    within that depth ([None] when the recursion is still going on).
    Every exception is caught by the handler of the invocation in which
    it is raised, which then returns. *)
Fixpoint _play_next (fuel : nat) (lib : PyTgCalls) (fs : gset string)
    (now : Z) (qm : QueueManager) (b : Backend) (chat_id : Z)
  : nat * option (QueueManager * Backend) :=
  match fuel with
  | O => (0%nat, None)
  | S fuel' =>
      match get_current qm chat_id with
      | None => (0%nat, Some (qm, b))
      | Some current_item =>
          let advance (b' : Backend) :=
            match next_item qm chat_id with
            | (Return (Some _), qm') =>
                let '(n, r) := _play_next fuel' lib fs now qm' b' chat_id in
                (S n, r)
            | (_, qm') => (1%nat, Some (qm', b'))
            end in
          if negb (path_exists fs (file_path current_item)) then advance b
          else
            match play_media lib fs now b chat_id (file_path current_item)
                    (is_video current_item) "medium" with
            | (true, b') => (1%nat, Some (qm, b'))
            | (false, b') => advance b'
            end
      end
  end.

(** [n] calls of [next_item] in a row, keeping the manager. *)
Fixpoint advance_n (n : nat) (qm : QueueManager) (chat_id : Z) : QueueManager :=
  match n with
  | O => qm
  | S n' => (next_item (advance_n n' qm chat_id) chat_id).2
  end.

(** ** Attachments *)

(** An attribute of a document.  The outer [None] is an attribute the
    object does not have ([hasattr] is false); the inner one is the value
    [None]. *)
Record DocumentAttribute : Type := mkDocumentAttribute {
  attr_title : option (option string);
  attr_file_name : option (option string);
  attr_duration : option Z;
  attr_performer : option (option string)
}.

(** The media objects of a message; a field the object lacks is [None]. *)
Record Document : Type := mkDocument {
  doc_size : option Z;
  doc_mime_type : option string;
  doc_attributes : option (list DocumentAttribute)
}.

Record Audio : Type := mkAudio {
  audio_size : option Z;
  audio_duration : option Z;
  audio_title : option string;
  audio_performer : option string
}.

Record Video : Type := mkVideo {
  video_size : option Z;
  video_duration : option Z
}.

(** A message: whether [message.media] is truthy, and the three views of
    the media, each [None] when missing or falsy. *)
Record Message : Type := mkMessage {
  media : bool;
  document : option Document;
  audio : option Audio;
  video : option Video
}.

(** [hasattr(attr, name) and attr.name] for a string attribute. *)
Definition attr_truthy (a : option (option string)) : option string :=
  match a with
  | Some (Some (String c s)) => Some (String c s)
  | _ => None
  end.

(** A value in an f-string; [None] prints as its name. *)
Definition py_format (v : option string) : string := default "None" v.

(** One turn of the loop over [message.document.attributes]. *)
Definition read_attribute (acc : string * Z) (attr : DocumentAttribute)
  : string * Z :=
  match attr_truthy (attr_title attr) with
  | Some t => (t, acc.2)
  | None =>
      match attr_truthy (attr_file_name attr) with
      | Some n => (n, acc.2)
      | None =>
          match attr_duration attr with
          | Some d => (acc.1, d)
          | None =>
              match attr_performer attr, attr_title attr with
              | Some p, Some t =>
                  ((py_format p ++ " - " ++ py_format t)%string, acc.2)
              | _, _ => acc
              end
          end
      end
  end.

(** The size that is checked against the cap. *)
Definition message_file_size (m : Message) : Z :=
  match document m, audio m, video m with
  | Some d, _, _ => default 0 (doc_size d)
  | None, Some a, _ => default 0 (audio_size a)
  | None, None, Some v => default 0 (video_size v)
  | None, None, None => 0
  end.

(** The suffix and the video flag chosen for a document. *)
Definition document_kind (mime_type : string) : string * bool :=
  let is_video := String.prefix "video/" mime_type in
  if endswith mime_type "/mp3" || str_in "audio/mp3" mime_type
  then (".mp3", is_video)
  else if endswith mime_type "/ogg" || str_in "audio/ogg" mime_type
  then (".ogg", is_video)
  else if endswith mime_type "/mp4" || str_in "video/mp4" mime_type
  then (".mp4", true)
  else ("", is_video).

(** What the resolver settles before it downloads: the suffix of the
    temporary file, the title, the duration and the video flag; [None]
    when the message has no document, audio or video. *)
Definition message_plan (m : Message) : option (string * string * Z * bool) :=
  match document m, audio m, video m with
  | Some d, _, _ =>
      let '(suffix, is_video) := document_kind (default "" (doc_mime_type d)) in
      let '(title, duration) :=
        foldl read_attribute ("Unknown", 0) (default [] (doc_attributes d)) in
      Some (suffix, title, duration, is_video)
  | None, Some a, _ =>
      let title := default "Audio" (audio_title a) in
      let title :=
        match audio_performer a with
        | Some (String c p) => (String c p ++ " - " ++ title)%string
        | _ => title
        end in
      Some (".mp3", title, default 0 (audio_duration a), false)
  | None, None, Some v =>
      Some (".mp4", "Video", default 0 (video_duration v), true)
  | None, None, None => None
  end.

(** [download_media] is the host client's download of the message into
    the given path. *)
Definition TelegramMediaSourceResolver_resolve (os : OS)
    (download_media : Message → string → result unit) (st : Store)
    (message : option Message) (metadata : option Metadata)
  : option QueueItem * Store :=
  match message with
  | None => (None, st)
  | Some m =>
      if negb (media m) then (None, st)
      else if 200 * 1024 * 1024 <? message_file_size m then (None, st)
      else
        match message_plan m with
        | None => (None, st)
        | Some (suffix, title, duration, is_video) =>
            let '(temp_file, st1) := create_temp_file os st suffix in
            if String.eqb temp_file "" then (None, st1)
            else
              match download_media m temp_file with
              | Raise _ => (None, cleanup_on_error st1 (Some temp_file))
              | Return _ =>
                  (Some {| file_path := temp_file; title := title;
                           duration := duration; is_video := is_video;
                           source_type := "telegram";
                           added_by := metadata_user_id metadata;
                           timestamp := 0 |}, st1)
              end
        end
  end.

(** ** More of the streaming backend *)

Module PyrogramTgCallsBackend.

(** The three shapes in which [join_voice_chat] tries [join_group_call]:
    with [AudioParameters()], with the chat alone, with an empty string. *)
Inductive JoinShape : Type :=
  | JoinWithParameters
  | JoinBare
  | JoinWithEmptyString.

(** PyTgCalls as [join_voice_chat], [pause_stream] and [resume_stream] see
    it: whether [AudioParameters] imports, which methods the object has,
    and what each call answers.  These calls carry no stream and are no
    [LibCall]s: [issued] goes on listing the stream calls alone, those of
    [play_media], [leave_voice_chat] and [stop_stream].  The lines the
    methods of this section log are left out. *)
Record Control : Type := mkControl {
  import_audio_parameters : result unit;
  has_join_group_call : bool;
  join_answer : JoinShape → Z → result unit;
  has_pause_stream : bool;
  pause_answer : Z → result unit;
  has_resume_stream : bool;
  resume_answer : Z → result unit
}.

(** [await self.pytgcalls.join_group_call(...)] in one of the shapes; a
    missing object or method is an [AttributeError]. *)
Definition call_join (ctl : Control) (b : Backend) (shape : JoinShape)
    (chat_id : Z) : result unit :=
  if has_pytgcalls b && has_join_group_call ctl
  then join_answer ctl shape chat_id
  else Raise AttributeError.

(** The fallback chain: the second try runs after any failure of the
    first; the third runs after a failure of the second when the method
    exists, and otherwise the first exception is raised again. *)
Definition try_join (ctl : Control) (b : Backend) (chat_id : Z) : result unit :=
  let first :=
    match import_audio_parameters ctl with
    | Raise e => Raise e
    | Return _ => call_join ctl b JoinWithParameters chat_id
    end in
  match first with
  | Return _ => Return tt
  | Raise e =>
      match call_join ctl b JoinBare chat_id with
      | Return _ => Return tt
      | Raise _ =>
          if has_pytgcalls b && has_join_group_call ctl
          then call_join ctl b JoinWithEmptyString chat_id
          else Raise e
      end
  end.

Definition join_voice_chat (ctl : Control) (now : Z) (b : Backend)
    (chat_id : Z) : bool * Backend :=
  if negb (is_initialized b) then (false, b)
  else
    match active_calls b !! chat_id with
    | Some _ => (true, b)
    | None =>
        match try_join ctl b chat_id with
        | Raise _ => (false, b)
        | Return _ =>
            (true,
             with_active_calls
               (<[chat_id := {| joined_at := now; current_stream := None;
                                is_paused := false |}]> (active_calls b)) b)
        end
    end.

(** [self.active_calls[chat_id]['is_paused'] = paused] *)
Definition set_paused (paused : bool) (b : Backend) (chat_id : Z)
    (info : CallInfo) : Backend :=
  with_active_calls
    (<[chat_id := {| joined_at := joined_at info;
                     current_stream := current_stream info;
                     is_paused := paused |}]> (active_calls b)) b.

Definition pause_stream (ctl : Control) (b : Backend) (chat_id : Z)
  : bool * Backend :=
  match active_calls b !! chat_id with
  | None => (false, b)
  | Some info =>
      if has_pytgcalls b && has_pause_stream ctl then
        match pause_answer ctl chat_id with
        | Raise _ => (false, b)
        | Return _ => (true, set_paused true b chat_id info)
        end
      else (false, b)
  end.

Definition resume_stream (ctl : Control) (b : Backend) (chat_id : Z)
  : bool * Backend :=
  match active_calls b !! chat_id with
  | None => (false, b)
  | Some info =>
      if has_pytgcalls b && has_resume_stream ctl then
        match resume_answer ctl chat_id with
        | Raise _ => (false, b)
        | Return _ => (true, set_paused false b chat_id info)
        end
      else (false, b)
  end.

(** The backend object with its Pyrogram client; [has_client] is
    [self.client is not None]. *)
Record Handles : Type := mkHandles {
  backend : Backend;
  has_client : bool
}.

(** [cleanup] leaves every chat in turn, in the order the map lists them,
    then calls the [stop] of PyTgCalls and of the client, and clears the
    object.  The two [stop]s may raise; the handlers swallow that and the
    [finally] clauses clear the fields either way, so their answers do not
    enter the state.  They are no stream calls and [issued] does not list
    them. *)
Definition cleanup (lib : PyTgCalls) (h : Handles) : Handles :=
  let b1 :=
    foldl (λ b chat_id, (leave_voice_chat lib b chat_id).2) (backend h)
      (elements (dom (active_calls (backend h)))) in
  {| backend := {| is_initialized := false; has_pytgcalls := false;
                   active_calls := ∅; issued := issued b1; log := log b1 |};
     has_client := false |}.

(** What [initialize] needs of its surroundings: the flag set at import
    time, and the answers of [client.start()] and [pytgcalls.start()]. *)
Record Pyrogram : Type := mkPyrogram {
  STREAMING_AVAILABLE : bool;
  client_start : Z → string → option string → result unit;
  pytgcalls_start : result unit
}.

Definition initialize (env : Pyrogram) (lib : PyTgCalls) (h : Handles)
    (api_id : Z) (api_hash : string) (session_string : option string)
  : bool * Handles :=
  if negb (STREAMING_AVAILABLE env) then (false, cleanup lib h)
  else
    let h1 := {| backend := backend h; has_client := true |} in
    match client_start env api_id api_hash session_string with
    | Raise _ => (false, cleanup lib h1)
    | Return _ =>
        let b2 :=
          {| is_initialized := is_initialized (backend h); has_pytgcalls := true;
             active_calls := active_calls (backend h);
             issued := issued (backend h); log := log (backend h) |} in
        match pytgcalls_start env with
        | Raise _ => (false, cleanup lib {| backend := b2; has_client := true |})
        | Return _ =>
            (true,
             {| backend :=
                  {| is_initialized := true; has_pytgcalls := true;
                     active_calls := active_calls b2; issued := issued b2;
                     log := log b2 |};
                has_client := true |})
        end
    end.

(** [bool(call_info and call_info.get('is_paused'))] *)
Definition is_paused (b : Backend) (chat_id : Z) : bool :=
  match active_calls b !! chat_id with
  | Some info => is_paused info
  | None => false
  end.

End PyrogramTgCallsBackend.

(** ** Commands *)

Module VoiceChatNativeMod.

(** The module object, as far as the commands below use it: the queue
    manager, the backend ([None] before a session is configured) and the
    database cell of the queues. *)
Record State : Type := mkState {
  queue_manager : QueueManager;
  backend : option Backend;
  db : Database
}.

(** The answers the commands send. *)
Inductive Reply : Type :=
  | not_configured
  | not_in_voice_chat
  | paused
  | failed_to_pause
  | not_paused
  | resumed
  | failed_to_resume
  | stopped
  | failed_to_stop
  | repeat_enabled
  | repeat_disabled
  | queue_cleared.

Definition with_backend (b : Backend) (s : State) : State :=
  {| queue_manager := queue_manager s; backend := Some b; db := db s |}.

(** A change of the queues followed by [save_queues]. *)
Definition with_saved_queues (qm : QueueManager) (s : State) : State :=
  {| queue_manager := qm; backend := backend s; db := save_queues qm (db s) |}.

(** [client_ready], as far as the queues go: a new manager, loaded from
    the database. *)
Definition client_ready (database : Database) : State :=
  {| queue_manager := load_queues QueueManager_init database;
     backend := None; db := database |}.

Definition _check_backend (s : State) : bool :=
  match backend s with
  | Some b => is_initialized b
  | None => false
  end.

Definition pause (ctl : PyrogramTgCallsBackend.Control) (s : State)
    (chat_id : Z) : Reply * State :=
  match backend s with
  | Some b =>
      if negb (_check_backend s) then (not_configured, s)
      else if negb (is_playing b chat_id) then (not_in_voice_chat, s)
      else
        match PyrogramTgCallsBackend.pause_stream ctl b chat_id with
        | (true, b') => (paused, with_backend b' s)
        | (false, b') => (failed_to_pause, with_backend b' s)
        end
  | None => (not_configured, s)
  end.

Definition resume (ctl : PyrogramTgCallsBackend.Control) (s : State)
    (chat_id : Z) : Reply * State :=
  match backend s with
  | Some b =>
      if negb (_check_backend s) then (not_configured, s)
      else if negb (PyrogramTgCallsBackend.is_paused b chat_id)
      then (not_paused, s)
      else
        match PyrogramTgCallsBackend.resume_stream ctl b chat_id with
        | (true, b') => (resumed, with_backend b' s)
        | (false, b') => (failed_to_resume, with_backend b' s)
        end
  | None => (not_configured, s)
  end.

Definition stop (lib : PyTgCalls) (s : State) (chat_id : Z) : Reply * State :=
  match backend s with
  | Some b =>
      if negb (_check_backend s) then (not_configured, s)
      else if negb (is_in_call b chat_id) then (not_in_voice_chat, s)
      else
        match stop_stream lib b chat_id with
        | (true, b') =>
            (stopped,
             with_saved_queues (clear_queue (queue_manager s) chat_id)
               (with_backend b' s))
        | (false, b') => (failed_to_stop, with_backend b' s)
        end
  | None => (not_configured, s)
  end.

Definition repeat (s : State) (chat_id : Z) : Reply * State :=
  let current_repeat := is_repeat_enabled (queue_manager s) chat_id in
  (if negb current_repeat then repeat_enabled else repeat_disabled,
   with_saved_queues
     (set_repeat (queue_manager s) chat_id (negb current_repeat)) s).

Definition clearqueue (s : State) (chat_id : Z) : Reply * State :=
  (queue_cleared,
   with_saved_queues (clear_queue (queue_manager s) chat_id) s).

(** The kinds of source [_get_media_source] tells apart. *)
Inductive Source : Type :=
  | youtube (url : string)
  | url (address : string)
  | telegram (message : Message).

(** [args] is the text after the command; [reply] is the message replied
    to, if any. *)
Definition _get_media_source (args : string) (reply : option Message)
  : option Source :=
  let from_reply :=
    match reply with
    | Some m => if media m then Some (telegram m) else None
    | None => None
    end in
  if String.eqb args "" then from_reply
  else if str_in "youtube.com" args || str_in "youtu.be" args
  then Some (youtube args)
  else if String.prefix "http://" args || String.prefix "https://" args
  then Some (url args)
  else from_reply.

(** [_resolve_source]: each kind of source goes to its resolver. *)
Record Resolvers : Type := mkResolvers {
  capabilities : Capabilities;
  operating_system : OS;
  youtube_dl : YoutubeDL;
  http_peer : Http;
  download_media : Message → string → result unit
}.

Definition _resolve_source (env : Resolvers) (st : Store) (source : Source)
    (metadata : option Metadata) : option QueueItem * Store :=
  match source with
  | youtube address =>
      YouTubeSourceResolver_resolve (capabilities env) (operating_system env)
        (youtube_dl env) st address metadata
  | url address =>
      DirectURLSourceResolver_resolve (operating_system env) (http_peer env)
        st address metadata
  | telegram message =>
      TelegramMediaSourceResolver_resolve (operating_system env)
        (download_media env) st (Some message) metadata
  end.

(** The module object with its temporary files and the [auto_play]
    setting. *)
Record Loaded : Type := mkLoaded {
  state : State;
  temp_manager : Store;
  auto_play : bool
}.

(** What a command message carries: the text after the command, the
    message replied to, the sender and the chat. *)
Record Command : Type := mkCommand {
  args : string;
  reply_message : option Message;
  sender_id : Z;
  chat : Z
}.

(** The answers of [addm] and [addv]; the last one carries the title, the
    duration and the position. *)
Inductive AddReply : Type :=
  | streaming_unavailable
  | backend_not_configured
  | no_media
  | download_failed
  | added_to_queue (title : string) (duration : Z) (position : Z).

(** [queue_item.is_video = True] *)
Definition force_video (item : QueueItem) : QueueItem :=
  {| file_path := file_path item; title := title item;
     duration := duration item; is_video := true;
     source_type := source_type item; added_by := added_by item;
     timestamp := timestamp item |}.

(** What a run of [addm] or [addv] shows: the answer it sent, the module
    as it was when the answer was sent, and the module as it was when the
    handler returned.  The last is [None] when the handler has not
    returned within the depth to which [_play_next] is unfolded. *)
Record Handled : Type := mkHandled {
  answer : AddReply;
  answered : Loaded;
  returned : option Loaded
}.

(** The body that [addm] and [addv] share; [video] is [True] in [addv],
    which also forces the entry to be a video.  [streaming] is the flag
    [STREAMING_AVAILABLE]; [now] is the time of the append and [later] the
    time of the play.  The entry is appended, the queues are saved and the
    answer is sent before [_play_next] is called; [fuel] bounds only what
    comes after the answer. *)
Definition add_media (video : bool) (fuel : nat) (streaming : bool)
    (env : Resolvers) (lib : PyTgCalls) (now later : Z) (m : Loaded)
    (message : Command) : Handled :=
  let send (a : AddReply) (m' : Loaded) :=
    {| answer := a; answered := m'; returned := Some m' |} in
  if negb streaming then send streaming_unavailable m
  else
    match backend (state m) with
    | None => send backend_not_configured m
    | Some b =>
        if negb (is_initialized b) then send backend_not_configured m
        else
          match _get_media_source (args message) (reply_message message) with
          | None => send no_media m
          | Some source =>
              let metadata :=
                Some {| md_user_id := Some (sender_id message);
                        md_title := None; md_is_video := Some video |} in
              match _resolve_source env (temp_manager m) source metadata with
              | (None, st') =>
                  send download_failed
                    {| state := state m; temp_manager := st';
                       auto_play := auto_play m |}
              | (Some queue_item, st') =>
                  let queue_item :=
                    if video then force_video queue_item else queue_item in
                  let '(position, qm') :=
                    add_item (queue_manager (state m)) (chat message)
                      queue_item now in
                  let db' := save_queues qm' (db (state m)) in
                  let a :=
                    added_to_queue (title queue_item) (duration queue_item)
                      position in
                  let m1 :=
                    {| state := {| queue_manager := qm'; backend := Some b;
                                   db := db' |};
                       temp_manager := st'; auto_play := auto_play m |} in
                  if auto_play m && negb (is_playing b (chat message)) then
                    {| answer := a; answered := m1;
                       returned :=
                         match _play_next fuel lib (disk st') later qm' b
                                 (chat message) with
                         | (_, Some (qm'', b'')) =>
                             Some {| state := {| queue_manager := qm'';
                                                 backend := Some b'';
                                                 db := db' |};
                                     temp_manager := st';
                                     auto_play := auto_play m |}
                         | (_, None) => None
                         end |}
                  else send a m1
              end
          end
    end.

Definition addm := add_media false.

Definition addv := add_media true.

End VoiceChatNativeMod.

(** ** Sample data *)

Definition song : QueueItem :=
  {| file_path := "/tmp/tmpk3v9_q2x.mp3"; title := "Song"; duration := 180;
     is_video := false; source_type := "youtube"; added_by := 42;
     timestamp := 0 |}.

Definition clip : QueueItem :=
  {| file_path := "/tmp/tmp7hw0m_zr.mp4"; title := "Clip"; duration := 60;
     is_video := true; source_type := "telegram"; added_by := 42;
     timestamp := 0 |}.

(** Chat 7 with two entries, appended at times 100 and 101. *)
Definition two_songs : QueueManager :=
  (add_item (add_item QueueManager_init 7 song 100).2 7 clip 101).2.

(** A persisted record of chat 7 that has a cursor and no items, and the
    manager [load_queues] makes of it. *)
Definition record_without_items : Persisted :=
  [("7", {| qd_items := None; qd_current := Some 3; qd_repeat := None |})].

Definition loaded_without_items : QueueManager :=
  load_queues QueueManager_init (Some record_without_items).

(** Chat 7 with one entry and repeat switched on. *)
Definition one_song_on_repeat : QueueManager :=
  set_repeat (add_item QueueManager_init 7 song 100).2 7 true.

(** A backend after [initialize], in no call. *)
Definition backend_ready : Backend :=
  {| is_initialized := true; has_pytgcalls := true; active_calls := ∅;
     issued := []; log := [] |}.

(** A library that accepts every call, and one that rejects every call. *)
Definition lib_ok : PyTgCalls :=
  {| import_types := Return tt; invoke := λ _ _, Return tt |}.

Definition lib_failing : PyTgCalls :=
  {| import_types := Return tt; invoke := λ _ _, Raise RuntimeError |}.

(** An empty disk, and an operating system that names its temporary
    files after one fixed stem. *)
Definition store0 : Store := {| disk := ∅; _temp_files := ∅ |}.

Definition os0 : OS :=
  {| tmp_name := λ _ suffix, ("/tmp/tmpq8r2_x1z" ++ suffix)%string;
     listing := elements |}.

Definition caps_all : Capabilities :=
  {| YT_DLP_AVAILABLE := true; FFMPEG_AVAILABLE := true |}.

(** A server that answers [HEAD] with 200 and an audio type, without a
    length, and then answers [GET] with 404. *)
Definition http_get_404 : Http :=
  {| aiohttp_installed := true;
     http_head := λ _, Return {| head_status := 200;
                                 head_content_length := None;
                                 head_content_type := Some "audio/mpeg" |};
     http_get := λ _, Return {| get_status := 404; get_chunks := [];
                                get_broken := false |} |}.

(** A server that declares 150 MB in its answer to [HEAD]. *)
Definition http_150mb : Http :=
  {| aiohttp_installed := true;
     http_head := λ _, Return {| head_status := 200;
                                 head_content_length := Some "157286400";
                                 head_content_type := Some "audio/mpeg" |};
     http_get := λ _, Return {| get_status := 200; get_chunks := [];
                                get_broken := false |} |}.

(** A platform whose probe reports 4000 seconds. *)
Definition ydl_long : YoutubeDL :=
  {| extract_info := λ _, Return {| info_title := Some "Long talk";
                                    info_duration := Some 4000 |};
     download := λ _, ([], Return tt) |}.

(** A server that answers [HEAD] and [GET] with 200 and sends three
    chunks, and the entry the direct-URL resolver makes of it. *)
Definition http_ok : Http :=
  {| aiohttp_installed := true;
     http_head := λ _, Return {| head_status := 200;
                                 head_content_length := None;
                                 head_content_type := Some "audio/mpeg" |};
     http_get := λ _, Return {| get_status := 200;
                                get_chunks := [8192; 8192; 100];
                                get_broken := false |} |}.

Definition downloaded : QueueItem :=
  {| file_path := "/tmp/tmpq8r2_x1z.m4a"; title := "a.mp3"; duration := 0;
     is_video := false; source_type := "url"; added_by := 0; timestamp := 0 |}.

(** A voice note of 2 MB sent as an audio message, a host client whose
    download fails, and one whose download succeeds. *)
Definition voice_note : Message :=
  {| media := true; document := None;
     audio := Some {| audio_size := Some 2097152; audio_duration := Some 30;
                      audio_title := Some "Note"; audio_performer := Some "Ann" |};
     video := None |}.

Definition download_fails : Message → string → result unit :=
  λ _ _, Raise RuntimeError.

Definition download_works : Message → string → result unit :=
  λ _ _, Return tt.

(** A PyTgCalls that knows every method and rejects only the join with
    [AudioParameters()]. *)
Definition ctl_old_api : PyrogramTgCallsBackend.Control :=
  {| PyrogramTgCallsBackend.import_audio_parameters := Raise ImportError;
     PyrogramTgCallsBackend.has_join_group_call := true;
     PyrogramTgCallsBackend.join_answer := λ _ _, Return tt;
     PyrogramTgCallsBackend.has_pause_stream := true;
     PyrogramTgCallsBackend.pause_answer := λ _, Return tt;
     PyrogramTgCallsBackend.has_resume_stream := true;
     PyrogramTgCallsBackend.resume_answer := λ _, Return tt |}.

(** Chat 7 playing [song]. *)
Definition backend_playing : Backend :=
  (play_media lib_ok {[file_path song]} 0 backend_ready 7 (file_path song)
     false "medium").2.

(** Surroundings in which the Pyrogram client starts and PyTgCalls does
    not. *)
Definition pyrogram_half_up : PyrogramTgCallsBackend.Pyrogram :=
  {| PyrogramTgCallsBackend.STREAMING_AVAILABLE := true;
     PyrogramTgCallsBackend.client_start := λ _ _ _, Return tt;
     PyrogramTgCallsBackend.pytgcalls_start := Raise RuntimeError |}.

(** The module with two entries queued for chat 7, [song] playing there,
    and nothing saved yet. *)
Definition module_playing : VoiceChatNativeMod.State :=
  {| VoiceChatNativeMod.queue_manager := two_songs;
     VoiceChatNativeMod.backend := Some backend_playing;
     VoiceChatNativeMod.db := None |}.

(** The surroundings of the resolvers with the server [http_ok], and the
    module [module_playing] with its settings; a command that names a URL
    in chat 7. *)
Definition resolvers_ok : VoiceChatNativeMod.Resolvers :=
  {| VoiceChatNativeMod.capabilities := caps_all;
     VoiceChatNativeMod.operating_system := os0;
     VoiceChatNativeMod.youtube_dl := ydl_long;
     VoiceChatNativeMod.http_peer := http_ok;
     VoiceChatNativeMod.download_media := download_works |}.

Definition loaded_playing : VoiceChatNativeMod.Loaded :=
  {| VoiceChatNativeMod.state := module_playing;
     VoiceChatNativeMod.temp_manager := store0;
     VoiceChatNativeMod.auto_play := true |}.

(** The same module with a backend in no call. *)
Definition loaded_idle : VoiceChatNativeMod.Loaded :=
  {| VoiceChatNativeMod.state :=
       {| VoiceChatNativeMod.queue_manager := two_songs;
          VoiceChatNativeMod.backend := Some backend_ready;
          VoiceChatNativeMod.db := None |};
     VoiceChatNativeMod.temp_manager := store0;
     VoiceChatNativeMod.auto_play := true |}.

Definition add_url : VoiceChatNativeMod.Command :=
  {| VoiceChatNativeMod.args := "https://example.org/a.mp3";
     VoiceChatNativeMod.reply_message := None;
     VoiceChatNativeMod.sender_id := 42;
     VoiceChatNativeMod.chat := 7 |}.

(** * Properties *)

(** [zbool] decides the integer tests of the goal that [lia] can settle. *)
Ltac zbool :=
  repeat match goal with
  | |- context [?a <=? ?b] =>
      (rewrite (proj2 (Z.leb_le a b)) by lia) ||
      (rewrite (proj2 (Z.leb_gt a b)) by lia)
  | |- context [?a <? ?b] =>
      (rewrite (proj2 (Z.ltb_lt a b)) by lia) ||
      (rewrite (proj2 (Z.ltb_ge a b)) by lia)
  | |- context [?a =? ?b] =>
      (rewrite (proj2 (Z.eqb_eq a b)) by lia) ||
      (rewrite (proj2 (Z.eqb_neq a b)) by lia)
  end.

(** ** Python values *)

Lemma py_getitem_in_range {A} (l : list A) (i : Z) :
  0 <= i < Z.of_nat (length l) →
  ∃ x, l !! Z.to_nat i = Some x ∧ py_getitem l i = Return x.
Proof.
  intros Hi. unfold py_getitem.
  destruct (lookup_lt_is_Some_2 l (Z.to_nat i)) as [x Hx]; [lia|].
  exists x. split; [done|].
  zbool. simpl. by rewrite Hx.
Qed.

Lemma nonempty_true {A} (l : list A) : nonempty l = true ↔ l ≠ [].
Proof. destruct l; simpl; split; intros; congruence. Qed.

Lemma nonempty_false {A} (l : list A) : nonempty l = false ↔ l = [].
Proof. destruct l; simpl; split; intros; congruence. Qed.

(** ** The queue store *)

Section queue_store.
Context (qm : QueueManager) (chat_id : Z).

Lemma next_item_queues : _queues (next_item qm chat_id).2 = _queues qm.
Proof.
  unfold next_item.
  repeat (case_match; simpl; try done).
Qed.

Lemma next_item_repeat_mode :
  _repeat_mode (next_item qm chat_id).2 = _repeat_mode qm.
Proof.
  unfold next_item.
  repeat (case_match; simpl; try done).
Qed.

Lemma next_item_step :
  get_queue qm chat_id ≠ [] →
  0 <= current_index qm chat_id + 1 < Z.of_nat (length (get_queue qm chat_id)) →
  ∃ x, get_queue qm chat_id !! Z.to_nat (current_index qm chat_id + 1) = Some x ∧
       next_item qm chat_id =
         (Return (Some x),
          with_current_playing
            (<[chat_id := current_index qm chat_id + 1]> (_current_playing qm)) qm).
Proof.
  intros Hne Hi.
  destruct (py_getitem_in_range _ _ Hi) as (x & Hx & Hget).
  exists x. split; [done|].
  unfold next_item.
  apply nonempty_true in Hne. rewrite Hne. simpl.
  zbool. by rewrite Hget.
Qed.

Lemma next_item_wrap :
  get_queue qm chat_id ≠ [] →
  Z.of_nat (length (get_queue qm chat_id)) <= current_index qm chat_id + 1 →
  is_repeat_enabled qm chat_id = true →
  ∃ x, get_queue qm chat_id !! 0%nat = Some x ∧
       next_item qm chat_id =
         (Return (Some x),
          with_current_playing (<[chat_id := 0]> (_current_playing qm)) qm).
Proof.
  intros Hne Hi Hrep.
  destruct (py_getitem_in_range (get_queue qm chat_id) 0) as (x & Hx & Hget).
  { destruct (get_queue qm chat_id); [done | simpl; lia]. }
  exists x. split; [done|].
  unfold next_item.
  apply nonempty_true in Hne. rewrite Hne. simpl.
  zbool. by rewrite Hrep, Hget.
Qed.

Lemma next_item_end :
  Z.of_nat (length (get_queue qm chat_id)) <= current_index qm chat_id + 1 →
  is_repeat_enabled qm chat_id = false →
  next_item qm chat_id = (Return None, qm).
Proof.
  intros Hi Hrep. unfold next_item.
  destruct (nonempty _); simpl; [|done].
  zbool. by rewrite Hrep.
Qed.
End queue_store.

Lemma current_index_with_current_playing qm d c :
  current_index (with_current_playing (<[d := c]> (_current_playing qm)) qm) d = c.
Proof. unfold current_index. simpl. by rewrite lookup_insert_eq. Qed.

(** C3. On a destination with [N > 0] items and a cursor within them,
    [next_item] never removes an item; it moves the cursor to [cursor + 1]
    and returns the entry there; past the last index it wraps to 0 and
    returns the entry at index 0 when repeat is set, and otherwise returns
    absent and leaves the cursor where it was, at [N - 1]. *)
Theorem next_item_advances (qm : QueueManager) (chat_id : Z) :
  let queue := get_queue qm chat_id in
  let N := Z.of_nat (length queue) in
  let ci := current_index qm chat_id in
  queue ≠ [] → 0 <= ci < N →
  _queues (next_item qm chat_id).2 = _queues qm ∧
  (ci + 1 < N →
     ∃ x, queue !! Z.to_nat (ci + 1) = Some x ∧
          (next_item qm chat_id).1 = Return (Some x) ∧
          current_index (next_item qm chat_id).2 chat_id = ci + 1) ∧
  (N <= ci + 1 → is_repeat_enabled qm chat_id = true →
     ∃ x, queue !! 0%nat = Some x ∧
          (next_item qm chat_id).1 = Return (Some x) ∧
          current_index (next_item qm chat_id).2 chat_id = 0) ∧
  (N <= ci + 1 → is_repeat_enabled qm chat_id = false →
     (next_item qm chat_id).1 = Return None ∧
     (next_item qm chat_id).2 = qm ∧
     current_index (next_item qm chat_id).2 chat_id = N - 1).
Proof.
  intros queue N ci. subst queue N ci. intros Hne Hci.
  split; [apply next_item_queues|].
  split; [|split].
  - intros Hlt.
    destruct (next_item_step qm chat_id Hne) as (x & Hx & Heq); [lia|].
    exists x. rewrite Heq. simpl.
    by rewrite current_index_with_current_playing.
  - intros Hge Hrep.
    destruct (next_item_wrap qm chat_id Hne) as (x & Hx & Heq); [done|done|].
    exists x. rewrite Heq. simpl.
    by rewrite current_index_with_current_playing.
  - intros Hge Hrep.
    rewrite next_item_end by done. simpl.
    repeat split. lia.
Qed.

Lemma next_item_advances_witness :
  (next_item two_songs 7).1 = Return (Some (set_timestamp 101 clip)) ∧
  current_index (next_item two_songs 7).2 7 = 1.
Proof.
  destruct (next_item_advances two_songs 7) as (_ & H & _).
  - discriminate.
  - vm_compute. split; [discriminate | reflexivity].
  - destruct H as (x & Hx & Hr & Hc); [vm_compute; reflexivity|].
    vm_compute in Hx. injection Hx as <-.
    split; [exact Hr | exact Hc].
Defined.

(** The scenario of the design document: on [N] items with repeat off,
    [n < N] calls from cursor 0 reach index [n]; so [N - 1] calls reach
    the last index, and the next call returns absent and stays there. *)
Lemma advance_n_reaches (n : nat) (qm : QueueManager) (chat_id : Z) :
  current_index qm chat_id = 0 →
  (n < length (get_queue qm chat_id))%nat →
  _queues (advance_n n qm chat_id) = _queues qm ∧
  _repeat_mode (advance_n n qm chat_id) = _repeat_mode qm ∧
  current_index (advance_n n qm chat_id) chat_id = Z.of_nat n.
Proof.
  intros H0. induction n as [|n IH]; intros Hn; simpl.
  - by rewrite H0.
  - destruct IH as (Hq & Hr & Hc); [lia|].
    rewrite next_item_queues, next_item_repeat_mode.
    split; [done|]. split; [done|].
    destruct (next_item_step (advance_n n qm chat_id) chat_id) as (x & _ & Heq).
    + unfold get_queue. rewrite Hq. fold (get_queue qm chat_id).
      destruct (get_queue qm chat_id); [simpl in Hn; lia | done].
    + unfold get_queue. rewrite Hq. fold (get_queue qm chat_id). lia.
    + rewrite Heq. simpl. rewrite current_index_with_current_playing. lia.
Qed.

Lemma advance_n_then_end (qm : QueueManager) (chat_id : Z) :
  let N := length (get_queue qm chat_id) in
  current_index qm chat_id = 0 → (0 < N)%nat →
  is_repeat_enabled qm chat_id = false →
  next_item (advance_n (N - 1) qm chat_id) chat_id
  = (Return None, advance_n (N - 1) qm chat_id) ∧
  current_index (advance_n (N - 1) qm chat_id) chat_id = Z.of_nat N - 1.
Proof.
  intros N H0 HN Hrep.
  destruct (advance_n_reaches (N - 1) qm chat_id H0) as (Hq & Hr & Hc);
    [subst N; lia|].
  split; [|lia].
  apply next_item_end.
  - unfold get_queue. rewrite Hq. fold (get_queue qm chat_id). subst N. lia.
  - unfold is_repeat_enabled. by rewrite Hr.
Qed.

Lemma clear_queue_lookup (qm : QueueManager) (chat_id : Z) :
  _queues (clear_queue qm chat_id) !! chat_id = None ∧
  _current_playing (clear_queue qm chat_id) !! chat_id = None.
Proof. simpl. by rewrite !lookup_delete_eq. Qed.

(** C4 (as the code has it). [clear_queue] drops the destination's queue
    and its cursor, so that [get_current] then returns absent; the repeat
    flags are left as they were. *)
Theorem clear_queue_drops_queue_and_cursor (qm : QueueManager) (chat_id : Z) :
  _queues (clear_queue qm chat_id) !! chat_id = None ∧
  _current_playing (clear_queue qm chat_id) !! chat_id = None ∧
  _repeat_mode (clear_queue qm chat_id) = _repeat_mode qm ∧
  get_queue (clear_queue qm chat_id) chat_id = [] ∧
  get_current (clear_queue qm chat_id) chat_id = None.
Proof.
  destruct (clear_queue_lookup qm chat_id) as [Hq Hc].
  repeat split; try done.
  - unfold get_queue. by rewrite Hq.
  - unfold get_current, get_queue. by rewrite Hq.
Qed.

(** C4 as stated fails: a repeat flag set before [clear_queue] is still
    set after it. *)
Lemma clear_queue_keeps_repeat :
  _repeat_mode (clear_queue one_song_on_repeat 7) !! 7 = Some true ∧
  is_repeat_enabled (clear_queue one_song_on_repeat 7) 7 = true.
Proof. split; vm_compute; reflexivity. Qed.

(** The frame of the queue operations: a destination other than the one
    operated on keeps its queue and cursor. *)
Lemma run_op_other (o : queue_op) (qm : QueueManager) (d chat_id : Z) :
  match o with
  | OpAppend d' _ _ | OpCurrent d' | OpAdvance d' | OpClear d' => d' = d
  end →
  d ≠ chat_id →
  get_queue (run_op o qm) chat_id = get_queue qm chat_id ∧
  current_index (run_op o qm) chat_id = current_index qm chat_id.
Proof.
  intros Hd Hne. destruct o; simpl in *; subst.
  - unfold get_queue, current_index. simpl. by rewrite lookup_insert_ne.
  - done.
  - unfold get_queue. rewrite next_item_queues. split; [done|].
    unfold next_item. unfold current_index at 1.
    repeat (case_match; simpl; try done); by rewrite lookup_insert_ne.
  - unfold get_queue, current_index. simpl. by rewrite !lookup_delete_ne.
Qed.

(** C8. Each operation of the queue store, on any destination, preserves
    the data model's invariant of every destination: with items, the
    cursor satisfies [0 <= cursor < len(items)]; without items it is 0. *)
Theorem queue_ops_preserve_cursor_ok (o : queue_op) (qm : QueueManager)
    (chat_id : Z) :
  cursor_ok qm chat_id →
  cursor_ok (run_op o qm) chat_id ∧ cursor_in_range (run_op o qm) chat_id.
Proof.
  intros Hok.
  cut (cursor_ok (run_op o qm) chat_id); [intros H; split; [done | exact (proj1 H)]|].
  assert (Hother : ∀ d,
    match o with
    | OpAppend d' _ _ | OpCurrent d' | OpAdvance d' | OpClear d' => d' = d
    end → d ≠ chat_id → cursor_ok (run_op o qm) chat_id).
  { intros d Hd Hne.
    destruct (run_op_other o qm d chat_id Hd Hne) as [Hq Hc].
    unfold cursor_ok. rewrite Hq, Hc. exact Hok. }
  destruct Hok as [Hin Hempty].
  destruct o as [d' item now|d'|d'|d'];
    (destruct (decide (d' = chat_id)) as [->|Hne];
     [clear Hother | by apply (Hother d')]); simpl.
  - (* append *)
    unfold cursor_ok, get_queue, current_index. simpl.
    rewrite lookup_insert_eq. simpl.
    fold (get_queue qm chat_id) (current_index qm chat_id).
    split; [intros _|intros H; by destruct (get_queue qm chat_id)].
    rewrite length_app. simpl.
    destruct (decide (get_queue qm chat_id = [])) as [He|Hn].
    + rewrite (Hempty He), He. simpl. lia.
    + specialize (Hin Hn). lia.
  - (* current *)
    by split.
  - (* advance *)
    destruct (decide (get_queue qm chat_id = [])) as [He|Hn].
    { unfold next_item. apply nonempty_false in He as He'. rewrite He'.
      simpl. by split. }
    specialize (Hin Hn).
    destruct (Z_lt_le_dec (current_index qm chat_id + 1)
                (Z.of_nat (length (get_queue qm chat_id)))) as [Hlt|Hge].
    + destruct (next_item_step qm chat_id Hn) as (x & _ & ->); [lia|].
      unfold cursor_ok. simpl. rewrite current_index_with_current_playing.
      unfold get_queue. simpl. fold (get_queue qm chat_id).
      split; [lia | done].
    + destruct (is_repeat_enabled qm chat_id) eqn:Hrep.
      * destruct (next_item_wrap qm chat_id Hn Hge Hrep) as (x & _ & ->).
        unfold cursor_ok. simpl. rewrite current_index_with_current_playing.
        unfold get_queue. simpl. fold (get_queue qm chat_id).
        split; [lia | done].
      * rewrite next_item_end by done. simpl. by split.
  - (* clear *)
    destruct (clear_queue_lookup qm chat_id) as [Hq Hc].
    unfold cursor_ok, current_index, get_queue. rewrite Hq, Hc. by split.
Qed.

Lemma queue_ops_preserve_cursor_ok_witness :
  cursor_ok (run_op (OpAdvance 7) two_songs) 7 ∧
  cursor_in_range (run_op (OpAdvance 7) two_songs) 7.
Proof.
  apply (queue_ops_preserve_cursor_ok (OpAdvance 7) two_songs 7).
  split; [intros _; vm_compute; split; [discriminate | reflexivity]
         |vm_compute; discriminate].
Defined.

(** C8 as stated fails: the first half of the invariant alone is not kept
    by [add_item].  [load_queues] accepts a record with a cursor and no
    items; the manager it makes satisfies [0 <= cursor < len(items)] on
    every destination, none having items, and one append later chat 7 has
    one item and its cursor is still 3. *)
Lemma add_item_after_stale_cursor :
  (∀ d, cursor_in_range loaded_without_items d) ∧
  get_queue (run_op (OpAppend 7 song 100) loaded_without_items) 7
  = [set_timestamp 100 song] ∧
  current_index (run_op (OpAppend 7 song 100) loaded_without_items) 7 = 3 ∧
  ¬ cursor_in_range (run_op (OpAppend 7 song 100) loaded_without_items) 7.
Proof.
  split.
  { intros d H. exfalso. apply H.
    assert (Hq : _queues loaded_without_items = <[7 := []]> ∅)
      by (vm_compute; reflexivity).
    unfold get_queue. rewrite Hq.
    destruct (decide (d = 7)) as [->|Hne];
      [by rewrite lookup_insert_eq | by rewrite lookup_insert_ne]. }
  split; [reflexivity|]. split; [reflexivity|].
  intros H. destruct H as [_ H]; [discriminate|].
  vm_compute in H. discriminate.
Qed.


Lemma set_repeat_cursor_ok (qm : QueueManager) (d chat_id : Z) (b : bool) :
  cursor_ok qm chat_id → cursor_ok (set_repeat qm d b) chat_id.
Proof. done. Qed.




(** C10. [set_repeat] sets the repeat flag of its destination, which
    [is_repeat_enabled] then returns; the items and the cursor of every
    destination, and the flag of every other destination, stay as they
    were. *)
Theorem set_repeat_frame (qm : QueueManager) (chat_id : Z) (b : bool) :
  let qm' := set_repeat qm chat_id b in
  is_repeat_enabled qm' chat_id = b ∧
  _queues qm' = _queues qm ∧
  _current_playing qm' = _current_playing qm ∧
  (∀ d, get_queue qm' d = get_queue qm d ∧
        current_index qm' d = current_index qm d ∧
        get_current qm' d = get_current qm d) ∧
  (∀ d, d ≠ chat_id → is_repeat_enabled qm' d = is_repeat_enabled qm d).
Proof.
  simpl. repeat split.
  - unfold is_repeat_enabled. simpl. by rewrite lookup_insert_eq.
  - intros d Hd. unfold is_repeat_enabled. simpl. by rewrite lookup_insert_ne.
Qed.

Lemma set_repeat_frame_witness :
  is_repeat_enabled (set_repeat two_songs 7 true) 8
  = is_repeat_enabled two_songs 8.
Proof.
  destruct (set_repeat_frame two_songs 7 true) as (_ & _ & _ & _ & H).
  apply H. discriminate.
Defined.

(** ** Persistence *)

Lemma py_int_py_str (n : Z) : py_int (py_str n) = Return n.
Proof.
  unfold py_int, py_str.
  rewrite NilZero.isi.
  - by rewrite DecimalZ.of_to.
  - destruct n; simpl; try discriminate.
    intros [= H]. by apply (DecimalPos.Unsigned.to_uint_nonnil p).
  - destruct n; simpl; try discriminate.
    intros [= H]. by apply (DecimalPos.Unsigned.to_uint_nonnil p).
Qed.

Lemma py_str_inj (m n : Z) : py_str m = py_str n → m = n.
Proof.
  intros H. apply (f_equal py_int) in H.
  rewrite !py_int_py_str in H. congruence.
Qed.

Lemma from_dict_to_dict (item : QueueItem) : from_dict (to_dict item) = Return item.
Proof. by destruct item. Qed.

Lemma from_dict_list_to_dict (items : list QueueItem) :
  from_dict_list (to_dict <$> items) = Return items.
Proof.
  induction items as [|item items IH]; [done|].
  rewrite fmap_cons. cbn [from_dict_list].
  by rewrite from_dict_to_dict, IH.
Qed.

Section save_load.
Context (qm : QueueManager).

(** Loading what [save_entry] wrote for the destinations [kvs] does not
    touch a destination that has no items among [kvs]. *)
Lemma load_saved_other (kvs : list (Z * list QueueItem)) (qm0 : QueueManager)
    (chat_id : Z) :
  (∀ queue, (chat_id, queue) ∈ kvs → queue = []) →
  let qm' := load_entries (omap (save_entry qm) kvs) qm0 in
  _queues qm' !! chat_id = _queues qm0 !! chat_id ∧
  _current_playing qm' !! chat_id = _current_playing qm0 !! chat_id ∧
  _repeat_mode qm' !! chat_id = _repeat_mode qm0 !! chat_id.
Proof.
  revert qm0. induction kvs as [|[k q] kvs IH]; intros qm0 Hnot; [done|].
  assert (Hrest : ∀ queue, (chat_id, queue) ∈ kvs → queue = [])
    by (intros queue Hin; apply Hnot; by right).
  simpl omap. unfold save_entry at 1. simpl.
  destruct (nonempty q) eqn:Hq; [|by apply IH].
  assert (Hk : chat_id ≠ k).
  { intros ->. rewrite (Hnot q) in Hq by left. done. }
  simpl load_entries. rewrite py_int_py_str. simpl.
  rewrite from_dict_list_to_dict. simpl.
  match goal with
  | |- context [load_entries _ ?q] => destruct (IH q Hrest) as (H1 & H2 & H3)
  end.
  split_and!; (etrans; [eassumption|]); simpl; by rewrite lookup_insert_ne.
Qed.

(** Loading what [save_entry] wrote for [kvs], whose destinations are
    pairwise distinct, restores each non-empty queue among them. *)
Lemma load_saved_entry (kvs : list (Z * list QueueItem)) (qm0 : QueueManager)
    (chat_id : Z) (queue : list QueueItem) :
  NoDup kvs.*1 → (chat_id, queue) ∈ kvs → queue ≠ [] →
  let qm' := load_entries (omap (save_entry qm) kvs) qm0 in
  _queues qm' !! chat_id = Some queue ∧
  _current_playing qm' !! chat_id = Some (current_index qm chat_id) ∧
  _repeat_mode qm' !! chat_id = Some (is_repeat_enabled qm chat_id).
Proof.
  revert qm0. induction kvs as [|[k q] kvs IH]; intros qm0 Hnd Hin Hne.
  { by apply elem_of_nil in Hin. }
  rewrite fmap_cons in Hnd. apply NoDup_cons in Hnd as [Hk Hnd].
  simpl in Hk. simpl omap. unfold save_entry at 1. simpl.
  apply elem_of_cons in Hin as [[= -> ->]|Hin].
  - apply nonempty_true in Hne. rewrite Hne.
    simpl load_entries. rewrite py_int_py_str. simpl.
    rewrite from_dict_list_to_dict. simpl.
    destruct (load_saved_other kvs
                {| _queues := <[k := q]> (_queues qm0);
                   _current_playing :=
                     <[k := current_index qm k]> (_current_playing qm0);
                   _repeat_mode :=
                     <[k := is_repeat_enabled qm k]> (_repeat_mode qm0) |}
                k) as (H1 & H2 & H3).
    { intros queue Hin. destruct Hk.
      apply list_elem_of_fmap. by exists (k, queue). }
    split_and!; (etrans; [eassumption|]); simpl; by rewrite lookup_insert_eq.
  - destruct (nonempty q); [|by apply IH].
    simpl load_entries. rewrite py_int_py_str. simpl.
    rewrite from_dict_list_to_dict.
    by apply IH.
Qed.

(** Every record of [save_data] comes from a non-empty queue. *)
Lemma save_data_entry (key : string) (qd : QueueData) :
  (key, qd) ∈ save_data qm →
  ∃ chat_id queue,
    _queues qm !! chat_id = Some queue ∧ queue ≠ [] ∧
    key = py_str chat_id ∧ qd_items qd = Some (to_dict <$> queue).
Proof.
  unfold save_data. rewrite list_elem_of_omap.
  intros ([k q] & Hin & Hsave).
  apply elem_of_map_to_list in Hin.
  unfold save_entry in Hsave. simpl in Hsave.
  destruct (nonempty q) eqn:Hq; [|done].
  injection Hsave as <- <-.
  exists k, q. by rewrite <- nonempty_true.
Qed.
End save_load.

(** What loading the saved data restores for a destination with items. *)
Lemma load_saved_nonempty (qm qm0 : QueueManager) (chat_id : Z) :
  get_queue qm chat_id ≠ [] →
  let qm' := load_entries (save_data qm) qm0 in
  get_queue qm' chat_id = get_queue qm chat_id ∧
  current_index qm' chat_id = current_index qm chat_id ∧
  is_repeat_enabled qm' chat_id = is_repeat_enabled qm chat_id.
Proof.
  intros Hne.
  destruct (_queues qm !! chat_id) as [queue|] eqn:Hq;
    [|by unfold get_queue in Hne; rewrite Hq in Hne].
  assert (Hg : get_queue qm chat_id = queue) by (unfold get_queue; by rewrite Hq).
  rewrite Hg in Hne.
  destruct (load_saved_entry qm (map_to_list (_queues qm)) qm0 chat_id queue)
    as (H1 & H2 & H3).
  { apply NoDup_fst_map_to_list. }
  { by apply elem_of_map_to_list. }
  { done. }
  fold (save_data qm) in H1, H2, H3.
  cbv zeta. unfold get_queue, current_index, is_repeat_enabled.
  by rewrite H1, H2, H3, Hq.
Qed.

(** What loading the saved data leaves alone: a destination without
    items. *)
Lemma load_saved_empty (qm qm0 : QueueManager) (chat_id : Z) :
  get_queue qm chat_id = [] →
  let qm' := load_entries (save_data qm) qm0 in
  _queues qm' !! chat_id = _queues qm0 !! chat_id ∧
  _current_playing qm' !! chat_id = _current_playing qm0 !! chat_id ∧
  _repeat_mode qm' !! chat_id = _repeat_mode qm0 !! chat_id.
Proof.
  intros He. apply load_saved_other.
  intros queue Hin. apply elem_of_map_to_list in Hin.
  unfold get_queue in He. by rewrite Hin in He.
Qed.

(** C7. Saving all queues and loading the saved data, into a manager in
    any state, restores for every destination that had items the same
    items, the same cursor and the same repeat flag, hence the same current
    entry; every saved record holds at least one item, and a destination
    without items has no record. *)
Theorem save_load_roundtrip (qm qm0 : QueueManager) (db : Database)
    (chat_id : Z) :
  let qm' := load_queues qm0 (save_queues qm db) in
  (get_queue qm chat_id ≠ [] →
     get_queue qm' chat_id = get_queue qm chat_id ∧
     current_index qm' chat_id = current_index qm chat_id ∧
     is_repeat_enabled qm' chat_id = is_repeat_enabled qm chat_id ∧
     get_current qm' chat_id = get_current qm chat_id) ∧
  (∀ key qd, (key, qd) ∈ default [] (save_queues qm db) →
     ∃ items, qd_items qd = Some items ∧ items ≠ []) ∧
  (get_queue qm chat_id = [] →
     py_str chat_id ∉ (default [] (save_queues qm db)).*1).
Proof.
  simpl. split; [|split].
  - intros Hne.
    destruct (load_saved_nonempty qm qm0 chat_id Hne) as (Hq & Hc & Hr).
    unfold load_queues. simpl.
    split; [done|]. split; [done|]. split; [done|].
    unfold get_current. by rewrite Hq, Hc.
  - intros key qd Hin.
    destruct (save_data_entry qm key qd Hin) as (k & q & _ & Hne & _ & Hitems).
    exists (to_dict <$> q). split; [done|].
    by destruct q.
  - intros He Hin.
    apply list_elem_of_fmap in Hin as ([key qd] & Hkey & Hin). simpl in Hkey.
    destruct (save_data_entry qm key qd Hin) as (k & q & Hq & Hne & -> & _).
    apply py_str_inj in Hkey as <-.
    unfold get_queue in He. rewrite Hq in He. simpl in He. done.
Qed.

Lemma save_load_roundtrip_witness :
  get_queue (load_queues QueueManager_init (save_queues two_songs None)) 7
  = get_queue two_songs 7.
Proof.
  destruct (save_load_roundtrip two_songs QueueManager_init None 7) as (H & _).
  apply H. discriminate.
Defined.

(** The invariant of the data model survives a restart: a manager made
    anew and loaded with what [save_queues] wrote satisfies it wherever
    the saving manager did. *)
Lemma load_saved_cursor_ok (qm : QueueManager) (db : Database) (chat_id : Z) :
  cursor_ok qm chat_id →
  cursor_ok (load_queues QueueManager_init (save_queues qm db)) chat_id.
Proof.
  intros Hok. unfold load_queues. simpl.
  destruct (decide (get_queue qm chat_id = [])) as [He|Hne].
  - destruct (load_saved_empty qm QueueManager_init chat_id He) as (Hq & Hc & _).
    unfold cursor_ok, get_queue, current_index. rewrite Hq, Hc. by split.
  - destruct (load_saved_nonempty qm QueueManager_init chat_id Hne) as (Hq & Hc & _).
    unfold cursor_ok. by rewrite Hq, Hc.
Qed.

(** ** The streaming backend *)

Lemma path_exists_truthy (fs : gset string) (f : string) :
  path_exists fs f = true → str_truthy (Some f) = true.
Proof. unfold path_exists. by destruct f. Qed.

Section backend.
Context (lib : PyTgCalls) (fs : gset string) (now : Z).
Context (b : Backend) (chat_id : Z).
Context (f : string) (v : bool) (q : string).

Lemma play_media_missing :
  is_initialized b = true → path_exists fs f = false →
  play_media lib fs now b chat_id f v q
  = (false, logging (LogMediaFileNotFound f) b).
Proof. intros Hi He. unfold play_media. by rewrite Hi, He. Qed.

Lemma play_media_joins :
  is_initialized b = true → has_pytgcalls b = true →
  import_types lib = Return tt → path_exists fs f = true →
  has_active_stream b chat_id = false →
  invoke lib (issued b) (join_group_call chat_id (make_stream f v q))
  = Return tt →
  ∃ b', play_media lib fs now b chat_id f v q = (true, b') ∧
        issued b' = issued b ++ [join_group_call chat_id (make_stream f v q)] ∧
        active_calls b' !! chat_id
        = Some {| joined_at := now; current_stream := Some f;
                  is_paused := false |} ∧
        is_initialized b' = true ∧ has_pytgcalls b' = true ∧
        has_active_stream b' chat_id = true.
Proof.
  intros Hi Hp Himp He Hs Hinv.
  unfold play_media, call_lib.
  rewrite Hi, He, Himp, Hs, Hp, Hinv. simpl.
  rewrite lookup_insert_eq. simpl.
  eexists. split; [done|]. simpl.
  rewrite insert_insert_eq.
  unfold has_active_stream. simpl. rewrite lookup_insert_eq. simpl.
  split_and!; try done. exact (path_exists_truthy _ _ He).
Qed.

Lemma play_media_changes :
  is_initialized b = true → has_pytgcalls b = true →
  import_types lib = Return tt → path_exists fs f = true →
  has_active_stream b chat_id = true →
  issued (play_media lib fs now b chat_id f v q).2
  = issued b ++ [change_stream chat_id (make_stream f v q)] ∧
  (invoke lib (issued b) (change_stream chat_id (make_stream f v q))
   = Return tt →
     (play_media lib fs now b chat_id f v q).1 = true ∧
     ∃ info, active_calls b !! chat_id = Some info ∧
             active_calls (play_media lib fs now b chat_id f v q).2 !! chat_id
             = Some {| joined_at := joined_at info; current_stream := Some f;
                       is_paused := false |}).
Proof.
  intros Hi Hp Himp He Hs.
  unfold play_media, call_lib.
  rewrite Hi, He, Himp, Hs, Hp. simpl.
  split.
  - destruct (invoke lib _ _) as [[]|e]; simpl.
    + by destruct (active_calls b !! chat_id).
    + by destruct (is_import_or_attribute_error e).
  - intros ->. simpl.
    unfold has_active_stream in Hs.
    destruct (active_calls b !! chat_id) as [info|] eqn:Hinfo; [|done].
    simpl. split; [done|]. exists info. split; [done|].
    by rewrite lookup_insert_eq.
Qed.

Lemma play_media_backend_error (e : exn) :
  is_initialized b = true → has_pytgcalls b = true →
  import_types lib = Return tt → path_exists fs f = true →
  invoke lib (issued b)
    (if has_active_stream b chat_id
     then change_stream chat_id (make_stream f v q)
     else join_group_call chat_id (make_stream f v q)) = Raise e →
  (play_media lib fs now b chat_id f v q).1 = false ∧
  ∃ line, log (play_media lib fs now b chat_id f v q).2 = log b ++ [line] ∧
          (line = LogApiError e ∨ line = LogFailedToPlay chat_id e).
Proof.
  intros Hi Hp Himp He Hinv.
  unfold play_media, call_lib.
  rewrite Hi, He, Himp, Hp. simpl.
  destruct (has_active_stream b chat_id); rewrite Hinv;
    destruct (is_import_or_attribute_error e); simpl; eauto.
Qed.
End backend.

(** C5 (as the code has it). With the backend initialised: on a missing
    file [play_media] fails before any call reaches the library and logs
    that the file was not found; on a destination without an active stream
    it joins with the stream, and a second [play_media] there, with any
    existing file, changes the stream and does not join again; a library
    error yields the same result [False] as a missing file, and the two
    differ in the line that is logged. *)
Theorem play_media_join_then_change (lib : PyTgCalls) (fs : gset string)
    (now : Z) (b : Backend) (chat_id : Z) (f1 f2 : string) (v1 v2 : bool)
    (q1 q2 : string) :
  is_initialized b = true → has_pytgcalls b = true →
  import_types lib = Return tt →
  let r1 := play_media lib fs now b chat_id f1 v1 q1 in
  let join1 := join_group_call chat_id (make_stream f1 v1 q1) in
  let change2 := change_stream chat_id (make_stream f2 v2 q2) in
  (path_exists fs f1 = false →
     r1 = (false, logging (LogMediaFileNotFound f1) b) ∧ issued r1.2 = issued b) ∧
  (path_exists fs f1 = true → has_active_stream b chat_id = false →
   invoke lib (issued b) join1 = Return tt →
     r1.1 = true ∧ issued r1.2 = issued b ++ [join1] ∧
     has_active_stream r1.2 chat_id = true ∧
     (path_exists fs f2 = true →
        let r2 := play_media lib fs now r1.2 chat_id f2 v2 q2 in
        issued r2.2 = issued b ++ [join1; change2] ∧
        (invoke lib (issued r1.2) change2 = Return tt →
           r2.1 = true ∧
           current_stream <$> (active_calls r2.2 !! chat_id) = Some (Some f2)))) ∧
  (path_exists fs f1 = true →
   ∀ e, invoke lib (issued b)
          (if has_active_stream b chat_id
           then change_stream chat_id (make_stream f1 v1 q1)
           else join1) = Raise e →
     r1.1 = false ∧
     ∃ line, log r1.2 = log b ++ [line] ∧ line ≠ LogMediaFileNotFound f1).
Proof.
  intros Hi Hp Himp r1 join1 change2. subst r1 join1 change2.
  split; [|split].
  - intros He. by rewrite play_media_missing.
  - intros He Hs Hinv.
    destruct (play_media_joins lib fs now b chat_id f1 v1 q1)
      as (b' & -> & Hiss & Hac & Hi' & Hp' & Hs'); try done.
    simpl. split; [done|]. split; [done|]. split; [done|].
    intros He2.
    destruct (play_media_changes lib fs now b' chat_id f2 v2 q2)
      as [Hiss2 Hok]; try done.
    split.
    + rewrite Hiss2, Hiss. by rewrite <- app_assoc.
    + intros Hinv2. by destruct (Hok Hinv2) as (-> & info & _ & ->).
  - intros He e Hinv.
    destruct (play_media_backend_error lib fs now b chat_id f1 v1 q1 e)
      as (Hr & line & Hlog & Hline); try done.
    split; [done|]. exists line. split; [done|].
    by destruct Hline as [-> | ->].
Qed.

Lemma play_media_join_then_change_witness :
  issued
    (play_media lib_ok {[file_path song; file_path clip]} 0
       (play_media lib_ok {[file_path song; file_path clip]} 0 backend_ready 7
          (file_path song) false "medium").2
       7 (file_path clip) true "medium").2
  = [join_group_call 7 (AudioPiped (file_path song) "medium");
     change_stream 7 (VideoPiped (file_path clip) "medium" "medium")].
Proof.
  destruct (play_media_join_then_change lib_ok
              {[file_path song; file_path clip]} 0 backend_ready 7
              (file_path song) (file_path clip) false true "medium" "medium")
    as (_ & H & _); [reflexivity | reflexivity | reflexivity |].
  destruct H as (_ & _ & _ & H);
    [vm_compute; reflexivity | reflexivity | reflexivity |].
  destruct H as [H _]; [vm_compute; reflexivity|].
  exact H.
Defined.

(** C5 as stated fails: the result of [play_media] for a missing file is
    the result it gives for a library error. *)
Lemma play_media_same_failure_value :
  (play_media lib_ok ∅ 0 backend_ready 7 (file_path song) false "medium").1
  = (play_media lib_failing {[file_path song]} 0 backend_ready 7
       (file_path song) false "medium").1.
Proof. vm_compute. reflexivity. Qed.

Section leave_and_stop.
Context (lib : PyTgCalls) (b : Backend) (chat_id : Z).

Lemma leave_voice_chat_joined (info : CallInfo) :
  active_calls b !! chat_id = Some info →
  (leave_voice_chat lib b chat_id).1 = true ∧
  active_calls (leave_voice_chat lib b chat_id).2
  = delete chat_id (active_calls b) ∧
  issued (leave_voice_chat lib b chat_id).2
  = (if has_pytgcalls b then issued b ++ [leave_group_call chat_id]
     else issued b).
Proof.
  intros Hinfo. unfold leave_voice_chat, call_lib. rewrite Hinfo.
  destruct (has_pytgcalls b); [destruct (invoke lib _ _)|]; done.
Qed.

Lemma stop_stream_joined (info : CallInfo) :
  active_calls b !! chat_id = Some info →
  (stop_stream lib b chat_id).1 = true ∧
  active_calls (stop_stream lib b chat_id).2
  = active_calls (leave_voice_chat lib b chat_id).2 ∧
  issued (stop_stream lib b chat_id).2
  = issued (leave_voice_chat lib b chat_id).2.
Proof.
  intros Hinfo. unfold stop_stream. rewrite Hinfo.
  by destruct (leave_voice_chat lib b chat_id).
Qed.
End leave_and_stop.

(** C6 (as the code has it). [leave_voice_chat] always succeeds, whatever
    the library answers and also without a session entry.  On a joined
    destination [stop_stream] gives the result of [leave_voice_chat], the
    same session state (the entry is dropped) and the same library calls.
    Without a session entry both leave the backend as it is, and
    [leave_voice_chat] returns [True] while [stop_stream] returns
    [False]. *)
Theorem stop_stream_leave_voice_chat (lib : PyTgCalls) (b : Backend)
    (chat_id : Z) :
  (leave_voice_chat lib b chat_id).1 = true ∧
  (is_in_call b chat_id = true →
     (stop_stream lib b chat_id).1 = (leave_voice_chat lib b chat_id).1 ∧
     active_calls (stop_stream lib b chat_id).2
     = active_calls (leave_voice_chat lib b chat_id).2 ∧
     active_calls (stop_stream lib b chat_id).2 = delete chat_id (active_calls b) ∧
     issued (stop_stream lib b chat_id).2
     = issued (leave_voice_chat lib b chat_id).2) ∧
  (is_in_call b chat_id = false →
     leave_voice_chat lib b chat_id = (true, b) ∧
     stop_stream lib b chat_id = (false, b)).
Proof.
  unfold is_in_call.
  destruct (active_calls b !! chat_id) as [info|] eqn:Hinfo.
  - destruct (leave_voice_chat_joined lib b chat_id info Hinfo) as (Hl & Hac & _).
    destruct (stop_stream_joined lib b chat_id info Hinfo) as (Hs & Hac' & Hiss).
    split; [done|]. split.
    + intros _. rewrite Hs, Hl, Hac', Hac. done.
    + intros H. apply bool_decide_eq_false in H. by destruct H.
  - unfold leave_voice_chat, stop_stream. rewrite Hinfo.
    split; [done|]. split; [|done].
    intros H. apply bool_decide_eq_true in H. by destruct H.
Qed.

Lemma stop_stream_leave_voice_chat_witness :
  let b := (play_media lib_ok {[file_path song]} 0 backend_ready 7
              (file_path song) false "medium").2 in
  (stop_stream lib_failing b 7).1 = (leave_voice_chat lib_failing b 7).1 ∧
  leave_voice_chat lib_ok backend_ready 7 = (true, backend_ready).
Proof.
  intros b.
  destruct (stop_stream_leave_voice_chat lib_failing b 7) as (_ & H & _).
  destruct (stop_stream_leave_voice_chat lib_ok backend_ready 7) as (_ & _ & H').
  split.
  - apply H. vm_compute. reflexivity.
  - apply H'. vm_compute. reflexivity.
Defined.

(** C6 as stated fails: without a session entry [stop_stream] does not
    give the result of [leave_voice_chat]. *)
Lemma stop_stream_differs_when_not_joined :
  (stop_stream lib_ok backend_ready 7).1 = false ∧
  (leave_voice_chat lib_ok backend_ready 7).1 = true.
Proof. split; reflexivity. Qed.

(** ** Orchestration *)

Lemma get_current_in_range (qm : QueueManager) (chat_id : Z) :
  get_queue qm chat_id ≠ [] →
  0 <= current_index qm chat_id < Z.of_nat (length (get_queue qm chat_id)) →
  ∃ x, get_queue qm chat_id !! Z.to_nat (current_index qm chat_id) = Some x ∧
       get_current qm chat_id = Some x.
Proof.
  intros Hne Hci.
  destruct (py_getitem_in_range _ _ Hci) as (x & Hx & Hget).
  exists x. split; [done|].
  unfold get_current. apply nonempty_true in Hne. rewrite Hne, Hget.
  zbool. done.
Qed.

Lemma get_current_Some_inv (qm : QueueManager) (chat_id : Z) (x : QueueItem) :
  get_current qm chat_id = Some x →
  get_queue qm chat_id ≠ [] ∧
  0 <= current_index qm chat_id < Z.of_nat (length (get_queue qm chat_id)).
Proof.
  unfold get_current.
  destruct (nonempty _) eqn:Hne; simpl; [|done].
  destruct (0 <=? _) eqn:H0; simpl; [|done].
  destruct (_ <? _) eqn:H1; simpl; [|done].
  intros _. apply nonempty_true in Hne. split; [done|]. lia.
Qed.

(** C1 fails on the code for a destination on repeat whose files are all
    missing: however deep [_play_next] is unfolded, it has tried one entry
    per level and has not returned. *)
Theorem _play_next_retries_without_bound (lib : PyTgCalls) (fs : gset string)
    (now : Z) (b : Backend) (chat_id : Z) (fuel : nat) (qm : QueueManager) :
  get_queue qm chat_id ≠ [] →
  0 <= current_index qm chat_id < Z.of_nat (length (get_queue qm chat_id)) →
  is_repeat_enabled qm chat_id = true →
  (∀ item, item ∈ get_queue qm chat_id →
           path_exists fs (file_path item) = false) →
  _play_next fuel lib fs now qm b chat_id = (fuel, None).
Proof.
  revert qm. induction fuel as [|fuel IH]; intros qm Hne Hci Hrep Hmiss; [done|].
  cbn [_play_next].
  destruct (get_current_in_range qm chat_id Hne Hci) as (x & Hx & ->).
  rewrite (Hmiss x) by (by eapply list_elem_of_lookup_2). simpl.
  assert (Hnext : ∃ y c,
    next_item qm chat_id
    = (Return (Some y),
       with_current_playing (<[chat_id := c]> (_current_playing qm)) qm) ∧
    0 <= c < Z.of_nat (length (get_queue qm chat_id))).
  { destruct (Z_lt_le_dec (current_index qm chat_id + 1)
                (Z.of_nat (length (get_queue qm chat_id)))) as [Hlt|Hge].
    - destruct (next_item_step qm chat_id Hne) as (y & _ & Heq); [lia|].
      exists y, (current_index qm chat_id + 1). split; [done | lia].
    - destruct (next_item_wrap qm chat_id Hne Hge Hrep) as (y & _ & Heq).
      exists y, 0. split; [done | lia]. }
  destruct Hnext as (y & c & -> & Hc).
  rewrite IH; [done | done | | done | done].
  by rewrite current_index_with_current_playing.
Qed.

Lemma _play_next_retries_without_bound_witness :
  _play_next 5 lib_ok ∅ 0 one_song_on_repeat backend_ready 7 = (5%nat, None).
Proof.
  apply (_play_next_retries_without_bound lib_ok ∅ 0 backend_ready 7 5
           one_song_on_repeat).
  - discriminate.
  - vm_compute. split; [discriminate | reflexivity].
  - reflexivity.
  - intros item _. unfold path_exists.
    rewrite bool_decide_eq_false_2 by set_solver.
    by rewrite andb_false_r.
Defined.

(** With repeat off the recursion does end: every level moves the cursor
    one entry further, so at most [len - cursor] entries are tried. *)
Lemma _play_next_returns_within (lib : PyTgCalls) (fs : gset string) (now : Z)
    (chat_id : Z) (k fuel : nat) (qm : QueueManager) (b : Backend) :
  is_repeat_enabled qm chat_id = false →
  Z.of_nat (length (get_queue qm chat_id)) - current_index qm chat_id
  <= Z.of_nat k →
  (k < fuel)%nat →
  ∃ n st, _play_next fuel lib fs now qm b chat_id = (n, Some st) ∧ (n <= k)%nat.
Proof.
  revert fuel qm b.
  induction k as [|k IH]; intros fuel qm b Hrep Hk Hfuel;
    (destruct fuel as [|fuel]; [lia|]); cbn [_play_next];
    destruct (get_current qm chat_id) as [item|] eqn:Hcur;
    try (exists 0%nat, (qm, b); split; [done | lia]).
  { apply get_current_Some_inv in Hcur. lia. }
  apply get_current_Some_inv in Hcur as [Hne Hci].
  assert (Hadv : ∀ b', ∃ n st,
    match next_item qm chat_id with
    | (Return (Some _), qm') =>
        let '(n, r) := _play_next fuel lib fs now qm' b' chat_id in (S n, r)
    | (_, qm') => (1%nat, Some (qm', b'))
    end = (n, Some st) ∧ (n <= S k)%nat).
  { intros b'.
    destruct (Z_lt_le_dec (current_index qm chat_id + 1)
                (Z.of_nat (length (get_queue qm chat_id)))) as [Hlt|Hge].
    - destruct (next_item_step qm chat_id Hne) as (y & _ & ->); [lia|].
      destruct (IH fuel
                  (with_current_playing
                     (<[chat_id := current_index qm chat_id + 1]>
                        (_current_playing qm)) qm) b')
        as (n & st & -> & Hn); [done | | lia |].
      + rewrite current_index_with_current_playing.
        unfold get_queue in *. simpl. lia.
      + exists (S n), st. split; [done | lia].
    - rewrite next_item_end by done.
      exists 1%nat, (qm, b'). split; [done | lia]. }
  destruct (negb (path_exists fs (file_path item))); [apply Hadv|].
  destruct (play_media _ _ _ _ _ _ _ _) as [[] b']; [|apply Hadv].
  exists 1%nat, (qm, b'). split; [done | lia].
Qed.

Lemma _play_next_returns_without_repeat (lib : PyTgCalls) (fs : gset string)
    (now : Z) (chat_id : Z) (fuel : nat) (qm : QueueManager) (b : Backend) :
  is_repeat_enabled qm chat_id = false →
  (length (get_queue qm chat_id) < fuel)%nat →
  ∃ n st, _play_next fuel lib fs now qm b chat_id = (n, Some st) ∧
          (n <= length (get_queue qm chat_id))%nat.
Proof.
  intros Hrep Hfuel.
  destruct (Z_le_gt_dec 0 (current_index qm chat_id)) as [Hc|Hc].
  - apply _play_next_returns_within; [done | lia | done].
  - destruct fuel as [|fuel]; [lia|]. cbn [_play_next].
    destruct (get_current qm chat_id) as [item|] eqn:Hcur.
    + apply get_current_Some_inv in Hcur. lia.
    + exists 0%nat, (qm, b). split; [done | lia].
Qed.

(** ** Source resolvers and their temporary files *)

Lemma cleanup_on_error_releases (st : Store) (temp_file : string) :
  temp_file ≠ "" → temp_file ∉ disk st → temp_file ∉ _temp_files st →
  cleanup_on_error (create_temp_file_store st temp_file) (Some temp_file) = st.
Proof.
  intros Hne Hd Ht. unfold cleanup_on_error, cleanup_file, path_exists.
  simpl.
  destruct (String.eqb_spec temp_file "") as [->|_]; [done|]. simpl.
  rewrite bool_decide_eq_true_2 by (apply elem_of_union_l, elem_of_singleton_2; done).
  simpl. destruct st as [d t]. simpl in *.
  f_equal; apply set_eq; intros x;
    rewrite elem_of_difference, elem_of_union, elem_of_singleton;
    (split; [by intros [[->|Hx] Hn] | intros Hx; split; [by right|by intros ->]]).
Qed.

Section direct_url.
Context (os : OS) (http : Http) (st : Store) (url : string)
        (metadata : option Metadata).

(** The paths through the handler do release: a failing [GET], a transfer
    that breaks off, a body larger than the cap. *)
Lemma direct_url_handler_releases (content_type : string) :
  let temp_file := tmp_name os (disk st) (suffix_of_content_type content_type) in
  aiohttp_installed http = true →
  head_check http url = HeadProceed content_type →
  temp_file ≠ "" → temp_file ∉ disk st → temp_file ∉ _temp_files st →
  match http_get http url with
  | Raise _ => True
  | Return response =>
      get_status response = 200 ∧
      write_chunks (100 * 1024 * 1024) 0 (get_chunks response)
        (get_broken response) = false
  end →
  DirectURLSourceResolver_resolve os http st url metadata = (None, st).
Proof.
  intros temp_file Hinst Hhead Hne Hd Ht Hget.
  pose proof (cleanup_on_error_releases st temp_file Hne Hd Ht) as Hrel.
  subst temp_file.
  unfold DirectURLSourceResolver_resolve, create_temp_file.
  rewrite Hinst, Hhead. cbv beta iota zeta.
  destruct (http_get http url) as [response|e]; [|by rewrite Hrel].
  destruct Hget as [-> ->]. cbv beta iota zeta.
  rewrite Z.eqb_refl. by rewrite Hrel.
Qed.

(** A rejection in the [HEAD] block comes before any file is made. *)
Lemma direct_url_head_reject :
  aiohttp_installed http = true → head_check http url = HeadReject →
  DirectURLSourceResolver_resolve os http st url metadata = (None, st).
Proof.
  intros Hinst Hhead. unfold DirectURLSourceResolver_resolve.
  by rewrite Hinst, Hhead.
Qed.
End direct_url.

(** The scenario of the design document: 150 MB declared against the cap
    of 100 MB is rejected and leaves the disk as it was. *)
Lemma direct_url_declared_oversize :
  DirectURLSourceResolver_resolve os0 http_150mb store0
    "https://example.org/a.mp3" None = (None, store0).
Proof. apply direct_url_head_reject; reflexivity. Qed.

(** C2 fails on the code on the two paths that return without passing
    through the handler: the direct-URL resolver after a [GET] answered
    with a status other than 200, and the platform resolver after a probe
    that reports more than 3600 seconds.  The result is the failure value
    and the file just created is still on disk and still tracked. *)
Theorem resolvers_keep_temp_file_on_early_return (caps : Capabilities)
    (os : OS) (http : Http) (ydl : YoutubeDL) (st : Store) (url : string)
    (metadata : option Metadata) :
  (aiohttp_installed http = true →
   ∀ content_type response,
     head_check http url = HeadProceed content_type →
     http_get http url = Return response → get_status response ≠ 200 →
     let r := DirectURLSourceResolver_resolve os http st url metadata in
     let temp_file := tmp_name os (disk st) (suffix_of_content_type content_type) in
     r.1 = None ∧ temp_file ∈ disk r.2 ∧ temp_file ∈ _temp_files r.2) ∧
  (YT_DLP_AVAILABLE caps = true → FFMPEG_AVAILABLE caps = true →
   ∀ info,
     extract_info ydl url = Return info →
     3600 < default 0 (info_duration info) →
     let r := YouTubeSourceResolver_resolve caps os ydl st url metadata in
     let temp_file := tmp_name os (disk st) ".mp3" in
     r.1 = None ∧ temp_file ∈ disk r.2 ∧ temp_file ∈ _temp_files r.2).
Proof.
  split.
  - intros Hinst content_type response Hhead Hget Hstatus.
    unfold DirectURLSourceResolver_resolve.
    rewrite Hinst, Hhead, Hget. simpl. zbool. simpl.
    split; [done|]. split; set_solver.
  - intros Hyt Hff info Hinfo Hlong.
    unfold YouTubeSourceResolver_resolve.
    rewrite Hyt, Hff, Hinfo. simpl. zbool. simpl.
    split; [done|]. split; set_solver.
Qed.

Lemma resolvers_keep_temp_file_on_early_return_witness :
  (let r := DirectURLSourceResolver_resolve os0 http_get_404 store0
              "https://example.org/a.mp3" None in
   r.1 = None ∧ "/tmp/tmpq8r2_x1z.m4a" ∈ disk r.2 ∧
   "/tmp/tmpq8r2_x1z.m4a" ∈ _temp_files r.2) ∧
  (let r := YouTubeSourceResolver_resolve caps_all os0 ydl_long store0
              "https://youtu.be/x" None in
   r.1 = None ∧ "/tmp/tmpq8r2_x1z.mp3" ∈ disk r.2 ∧
   "/tmp/tmpq8r2_x1z.mp3" ∈ _temp_files r.2).
Proof.
  destruct (resolvers_keep_temp_file_on_early_return caps_all os0 http_get_404
              ydl_long store0 "https://example.org/a.mp3" None) as [H1 _].
  destruct (resolvers_keep_temp_file_on_early_return caps_all os0 http_get_404
              ydl_long store0 "https://youtu.be/x" None) as [_ H2].
  split.
  - apply (H1 eq_refl "audio/mpeg"
             {| get_status := 404; get_chunks := []; get_broken := false |});
      [reflexivity | reflexivity | discriminate].
  - apply (H2 eq_refl eq_refl
             {| info_title := Some "Long talk"; info_duration := Some 4000 |});
      [reflexivity | reflexivity].
Defined.

(** * More properties of the code *)

(** ** The queue store, continued *)

Lemma next_item_cursor_forward (qm : QueueManager) (chat_id : Z) :
  is_repeat_enabled qm chat_id = false →
  current_index qm chat_id <= current_index (next_item qm chat_id).2 chat_id.
Proof.
  intros Hrep. unfold next_item.
  destruct (nonempty _); simpl; [|lia].
  rewrite Hrep.
  destruct (_ <=? _); [simpl; lia|].
  destruct (py_getitem _ _); simpl;
    rewrite current_index_with_current_playing; lia.
Qed.

(** Whatever [_play_next] does, it keeps the items of every queue and the
    repeat flags, and with repeat off it never moves a cursor back. *)
Lemma _play_next_frame (lib : PyTgCalls) (fs : gset string) (now : Z)
    (chat_id : Z) (fuel : nat) (qm : QueueManager) (b : Backend) (n : nat)
    (qm' : QueueManager) (b' : Backend) :
  _play_next fuel lib fs now qm b chat_id = (n, Some (qm', b')) →
  _queues qm' = _queues qm ∧ _repeat_mode qm' = _repeat_mode qm ∧
  (is_repeat_enabled qm chat_id = false →
   current_index qm chat_id <= current_index qm' chat_id).
Proof.
  revert qm b n. induction fuel as [|fuel IH]; intros qm b n; [done|].
  cbn [_play_next].
  destruct (get_current qm chat_id) as [item|];
    [|intros [= <- <- <-]; split_and!; [done | done | lia]].
  pose proof (next_item_queues qm chat_id) as Hq.
  pose proof (next_item_repeat_mode qm chat_id) as Hr.
  pose proof (next_item_cursor_forward qm chat_id) as Hc.
  destruct (next_item qm chat_id) as [r qm1]. simpl in Hq, Hr, Hc.
  assert (Hadv : ∀ b1,
    match r with
    | Return (Some _) =>
        let '(n, r) := _play_next fuel lib fs now qm1 b1 chat_id in (S n, r)
    | _ => (1%nat, Some (qm1, b1))
    end = (n, Some (qm', b')) →
    _queues qm' = _queues qm ∧ _repeat_mode qm' = _repeat_mode qm ∧
    (is_repeat_enabled qm chat_id = false →
     current_index qm chat_id <= current_index qm' chat_id)).
  { intros b1 H.
    destruct r as [[x|]|e]; try (injection H as <- <- <-; done).
    destruct (_play_next fuel lib fs now qm1 b1 chat_id) as [n1 r1] eqn:Hrec.
    injection H as <- ->.
    destruct (IH _ _ _ Hrec) as (Hq1 & Hr1 & Hc1).
    split; [congruence|]. split; [congruence|].
    intros Hrep. specialize (Hc Hrep).
    assert (is_repeat_enabled qm1 chat_id = false)
      by (unfold is_repeat_enabled in *; by rewrite Hr).
    specialize (Hc1 H). lia. }
  destruct (negb (path_exists fs (file_path item))); [apply Hadv|].
  destruct (play_media _ _ _ _ _ _ _ _) as [[] b1]; [|apply Hadv].
  intros [= <- <- <-]. split_and!; [done | done | lia].
Qed.

(** X1. With repeat off, [_play_next] returns once it is unfolded deeper
    than the queue is long: it has tried at most [len(queue)] entries,
    has kept the items of every queue and the repeat flags, and has only
    moved the cursor forward. *)
Theorem play_next_ends_without_repeat (lib : PyTgCalls) (fs : gset string)
    (now : Z) (chat_id : Z) (fuel : nat) (qm : QueueManager) (b : Backend) :
  is_repeat_enabled qm chat_id = false →
  (length (get_queue qm chat_id) < fuel)%nat →
  ∃ n qm' b',
    _play_next fuel lib fs now qm b chat_id = (n, Some (qm', b')) ∧
    (n <= length (get_queue qm chat_id))%nat ∧
    _queues qm' = _queues qm ∧ _repeat_mode qm' = _repeat_mode qm ∧
    current_index qm chat_id <= current_index qm' chat_id.
Proof.
  intros Hrep Hfuel.
  destruct (_play_next_returns_without_repeat lib fs now chat_id fuel qm b
              Hrep Hfuel) as (n & [qm' b'] & Heq & Hn).
  exists n, qm', b'. split; [done|]. split; [done|].
  destruct (_play_next_frame _ _ _ _ _ _ _ _ _ _ Heq) as (Hq & Hr & Hc).
  split; [done|]. split; [done|]. by apply Hc.
Qed.

Lemma play_next_ends_without_repeat_witness :
  ∃ n qm' b',
    _play_next 3 lib_failing {[file_path clip]} 0 two_songs backend_ready 7
    = (n, Some (qm', b')) ∧
    (n <= length (get_queue two_songs 7))%nat ∧
    _queues qm' = _queues two_songs ∧ _repeat_mode qm' = _repeat_mode two_songs ∧
    current_index two_songs 7 <= current_index qm' 7.
Proof.
  apply (play_next_ends_without_repeat lib_failing {[file_path clip]} 0 7 3
           two_songs backend_ready).
  - reflexivity.
  - vm_compute. lia.
Defined.

(** X2. Under repeat the cursor goes round: after [n] calls of [next_item]
    from a cursor [c] within [N] items it is at [(c + n) mod N], the items
    are as they were, and the next call returns the entry at
    [(c + n + 1) mod N]. *)
Theorem next_item_cycles_under_repeat (n : nat) (qm : QueueManager)
    (chat_id : Z) :
  let queue := get_queue qm chat_id in
  let N := Z.of_nat (length queue) in
  let c := current_index qm chat_id in
  queue ≠ [] → 0 <= c < N → is_repeat_enabled qm chat_id = true →
  get_queue (advance_n n qm chat_id) chat_id = queue ∧
  is_repeat_enabled (advance_n n qm chat_id) chat_id = true ∧
  current_index (advance_n n qm chat_id) chat_id = (c + Z.of_nat n) mod N ∧
  ∃ x, queue !! Z.to_nat ((c + Z.of_nat n + 1) mod N) = Some x ∧
       (next_item (advance_n n qm chat_id) chat_id).1 = Return (Some x).
Proof.
  intros queue N c. subst queue N c. intros Hne Hc Hrep.
  set (N := Z.of_nat (length (get_queue qm chat_id))) in *.
  assert (Hinv : get_queue (advance_n n qm chat_id) chat_id = get_queue qm chat_id ∧
                 is_repeat_enabled (advance_n n qm chat_id) chat_id = true ∧
                 current_index (advance_n n qm chat_id) chat_id
                 = (current_index qm chat_id + Z.of_nat n) mod N).
  { induction n as [|n IH].
    - simpl. rewrite Z.add_0_r, Z.mod_small by done. done.
    - destruct IH as (Hq & Hr & Hi). cbn [advance_n].
      split; [unfold get_queue in *; by rewrite next_item_queues|].
      split; [unfold is_repeat_enabled in *; by rewrite next_item_repeat_mode|].
      assert (0 <= (current_index qm chat_id + Z.of_nat n) mod N < N)
        by (apply Z.mod_pos_bound; lia).
      replace (current_index qm chat_id + Z.of_nat (S n))
        with ((current_index qm chat_id + Z.of_nat n) + 1) by lia.
      rewrite <- Z.add_mod_idemp_l by lia. rewrite <- Hi.
      destruct (Z_lt_le_dec (current_index (advance_n n qm chat_id) chat_id + 1) N)
        as [Hlt|Hge].
      + destruct (next_item_step (advance_n n qm chat_id) chat_id)
          as (x & _ & ->); [by rewrite Hq | rewrite Hq; fold N; lia |].
        simpl. rewrite current_index_with_current_playing.
        rewrite Z.mod_small; lia.
      + destruct (next_item_wrap (advance_n n qm chat_id) chat_id)
          as (x & _ & ->); [by rewrite Hq | rewrite Hq; by fold N | done |].
        simpl. rewrite current_index_with_current_playing.
        replace (current_index (advance_n n qm chat_id) chat_id + 1) with N by lia.
        by rewrite Z.mod_same by lia. }
  destruct Hinv as (Hq & Hr & Hi).
  split; [done|]. split; [done|]. split; [done|].
  assert (0 <= (current_index qm chat_id + Z.of_nat n) mod N < N)
    by (apply Z.mod_pos_bound; lia).
  rewrite <- Z.add_mod_idemp_l by lia. rewrite <- Hi.
  destruct (Z_lt_le_dec (current_index (advance_n n qm chat_id) chat_id + 1) N)
    as [Hlt|Hge].
  - destruct (next_item_step (advance_n n qm chat_id) chat_id)
      as (x & Hx & ->); [by rewrite Hq | rewrite Hq; fold N; lia |].
    exists x. rewrite Hq in Hx. rewrite Z.mod_small by lia. done.
  - destruct (next_item_wrap (advance_n n qm chat_id) chat_id)
      as (x & Hx & ->); [by rewrite Hq | rewrite Hq; by fold N | done |].
    exists x. rewrite Hq in Hx.
    replace (current_index (advance_n n qm chat_id) chat_id + 1) with N by lia.
    rewrite Z.mod_same by lia. done.
Qed.

Lemma next_item_cycles_under_repeat_witness :
  current_index (advance_n 5 (set_repeat two_songs 7 true) 7) 7 = 1.
Proof.
  destruct (next_item_cycles_under_repeat 5 (set_repeat two_songs 7 true) 7)
    as (_ & _ & H & _).
  - discriminate.
  - vm_compute. split; [discriminate | reflexivity].
  - reflexivity.
  - exact H.
Defined.

(** X3. Appending to any destination keeps the cursor and the current
    entry of every destination that has one.  [add_item] stamps the
    object it is given, so the current entry is the same up to its
    timestamp, and the very same unless it is the entry passed.  In the
    same way the entries already queued stay in front of the new one, in
    their order: up to their timestamps, and as they were when the entry
    passed is none of them. *)
Theorem add_item_keeps_current (qm : QueueManager) (d chat_id : Z)
    (item x : QueueItem) (now : Z) :
  get_current qm chat_id = Some x →
  let qm' := (add_item qm d item now).2 in
  current_index qm' chat_id = current_index qm chat_id ∧
  (∃ y, get_current qm' chat_id = Some y ∧
        set_timestamp now y = set_timestamp now x) ∧
  (item ≠ x → get_current qm' chat_id = Some x) ∧
  set_timestamp now <$> get_queue qm' d
  = set_timestamp now <$> (get_queue qm d ++ [item]) ∧
  (item ∉ get_queue qm d →
     get_queue qm' d = get_queue qm d ++ [set_timestamp now item]).
Proof.
  intros Hcur qm'. subst qm'.
  assert (Hq : get_queue (add_item qm d item now).2 d
               = get_queue qm d ++ [set_timestamp now item]).
  { unfold get_queue at 1. simpl. by rewrite lookup_insert_eq. }
  assert (Hkeep : get_current (add_item qm d item now).2 chat_id = Some x).
  { destruct (decide (d = chat_id)) as [->|Hne].
    - destruct (get_current_Some_inv _ _ _ Hcur) as [Hne Hci].
      destruct (get_current_in_range qm chat_id Hne Hci) as (y & Hy & Hcur').
      assert (y = x) as -> by congruence.
      destruct (get_current_in_range (add_item qm chat_id item now).2 chat_id)
        as (z & Hz & ->).
      + rewrite Hq. by destruct (get_queue qm chat_id).
      + rewrite Hq, length_app. unfold current_index in *. simpl. lia.
      + rewrite Hq in Hz. unfold current_index in Hz at 1. simpl in Hz.
        fold (current_index qm chat_id) in Hz.
        rewrite lookup_app_l in Hz by lia. congruence.
    - rewrite <- Hcur. unfold get_current, get_queue, current_index. simpl.
      by rewrite lookup_insert_ne. }
  split; [done|]. split; [by exists x|]. split; [done|].
  split; [|done].
  rewrite Hq, !fmap_app. done.
Qed.

Lemma add_item_keeps_current_witness :
  get_current (add_item two_songs 7 downloaded 102).2 7
  = Some (set_timestamp 100 song).
Proof.
  destruct (add_item_keeps_current two_songs 7 7 downloaded
              (set_timestamp 100 song) 102) as (_ & _ & H & _);
    [reflexivity|].
  apply H. discriminate.
Defined.

(** X4. From any state whatever, [clear_queue] followed by [add_item] on
    the same destination gives position 1 and makes the new entry the
    current one. *)
Theorem clear_then_add_is_current (qm : QueueManager) (chat_id : Z)
    (item : QueueItem) (now : Z) :
  (add_item (clear_queue qm chat_id) chat_id item now).1 = 1 ∧
  get_queue (add_item (clear_queue qm chat_id) chat_id item now).2 chat_id
  = [set_timestamp now item] ∧
  get_current (add_item (clear_queue qm chat_id) chat_id item now).2 chat_id
  = Some (set_timestamp now item).
Proof.
  destruct (clear_queue_lookup qm chat_id) as [Hq Hc].
  assert (Hg : get_queue (clear_queue qm chat_id) chat_id = [])
    by (unfold get_queue; by rewrite Hq).
  assert (Hg' : get_queue (add_item (clear_queue qm chat_id) chat_id item now).2
                  chat_id = [set_timestamp now item]).
  { unfold get_queue at 1. cbn [add_item snd with_queues _queues].
    rewrite lookup_insert_eq. simpl. by rewrite Hg. }
  split; [cbn [add_item fst]; by rewrite Hg|]. split; [done|].
  unfold get_current. rewrite Hg'.
  unfold current_index. cbn [add_item snd with_queues _current_playing].
  by rewrite Hc.
Qed.

(** ** Persistence, continued *)

Lemma from_dict_raises (data : ItemData) :
  (∃ e, from_dict data = Raise e) ↔
  d_unknown data ≠ [] ∨ d_file_path data = None ∨ d_title data = None.
Proof.
  unfold from_dict.
  destruct (d_unknown data), (d_file_path data), (d_title data);
    split; try (intros [e [=]]); try (intros [?|[?|?]]; done); eauto.
Qed.

(** X5. A list of persisted items loads exactly when every one of them
    has a [file_path] and a [title] and no unknown key; it then yields one
    entry per record, in order, and what [to_dict] wrote loads back as it
    was. *)
Theorem from_dict_list_loads (xs : list ItemData) :
  ((∃ e, from_dict_list xs = Raise e) ↔
   ∃ x, x ∈ xs ∧
        (d_unknown x ≠ [] ∨ d_file_path x = None ∨ d_title x = None)) ∧
  (∀ items, from_dict_list xs = Return items →
     length items = length xs ∧
     ∀ i x, xs !! i = Some x → Return <$> items !! i = Some (from_dict x)) ∧
  (∀ items, from_dict_list (to_dict <$> items) = Return items).
Proof.
  split; [|split].
  - induction xs as [|x xs IH]; simpl.
    + split; [intros [e [=]] | intros (x & Hx & _); by apply elem_of_nil in Hx].
    + destruct (from_dict x) as [item|e] eqn:Hx.
      * destruct (from_dict_list xs) as [items|e] eqn:Hxs.
        -- split; [intros [e [=]]|].
           intros (y & [->|Hy]%elem_of_cons & Hbad).
           ++ apply from_dict_raises in Hbad as [e He]. congruence.
           ++ destruct (proj2 IH) as [e [=]]. by exists y.
        -- split; [|by eauto].
           intros _. destruct (proj1 IH) as (y & Hy & Hbad); [by eauto|].
           exists y. split; [by right | done].
      * split; [|by eauto].
        intros _. exists x. split; [by left|].
        apply from_dict_raises. by eauto.
  - induction xs as [|x xs IH]; simpl; intros items.
    + intros [= <-]. split; [done|]. intros i y Hy. by destruct i.
    + destruct (from_dict x) as [item|e] eqn:Hx; [|done].
      destruct (from_dict_list xs) as [items'|e]; [|done].
      intros [= <-]. destruct (IH items' eq_refl) as [Hlen Hnth].
      split; [simpl; by rewrite Hlen|].
      intros [|i] y Hy; simpl in Hy; simpl.
      * injection Hy as <-. by rewrite Hx.
      * by apply Hnth.
  - apply from_dict_list_to_dict.
Qed.

(** A character outside the integer literals is no digit and no minus
    sign, so a text that holds one is no literal of [py_int]. *)
Lemma outside_int_literal_no_digit (c : Ascii.ascii) (d : option Decimal.uint) :
  outside_int_literal c = true →
  DecimalString.uint_of_char c d = None ∧ Ascii.eqb c "-" = false.
Proof.
  destruct d as [d|];
    destruct c as [[] [] [] [] [] [] [] []]; vm_compute; intros H;
    try discriminate H; split; reflexivity.
Qed.

Lemma uint_of_string_outside (s : string) :
  any_char outside_int_literal s = true → NilEmpty.uint_of_string s = None.
Proof.
  induction s as [|c s IH]; simpl; [done|].
  intros [Hc|Hs]%orb_true_iff.
  - by apply outside_int_literal_no_digit.
  - rewrite (IH Hs). by destruct c as [[] [] [] [] [] [] [] []].
Qed.

Lemma py_int_outside (s : string) :
  any_char outside_int_literal s = true → py_int s = Raise ValueError.
Proof.
  intros H. unfold py_int, NilZero.int_of_string, NilZero.uint_of_string.
  destruct s as [|c s]; [done|].
  destruct (Ascii.eqb c "-") eqn:Hminus.
  - simpl in H. apply orb_true_iff in H as [Hc|Hs].
    + apply (outside_int_literal_no_digit c None) in Hc as [_ Hc]. congruence.
    + destruct s as [|c' s']; [done|]. by rewrite (uint_of_string_outside _ Hs).
  - by rewrite (uint_of_string_outside _ H).
Qed.

(** X6. A record whose key holds a character that no integer literal
    holds (a letter, a dot, a slash, ...), or one of whose items does not
    load, ends the loading: the records before it are loaded as if it
    were the end of the data, and those after it are not looked at. *)
Theorem load_stops_at_bad_record (before after : Persisted) (key : string)
    (qd : QueueData) (qm : QueueManager) :
  any_char outside_int_literal key = true ∨
  (∃ e, from_dict_list (default [] (qd_items qd)) = Raise e) →
  load_entries (before ++ (key, qd) :: after) qm = load_entries before qm.
Proof.
  intros Hbad. revert qm.
  induction before as [|[k q] before IH]; intros qm; simpl.
  - destruct Hbad as [Hkey|[e He]]; [by rewrite (py_int_outside _ Hkey)|].
    destruct (py_int key); [by rewrite He | done].
  - destruct (py_int k) as [n|e]; [|done].
    destruct (from_dict_list (default [] (qd_items q))) as [items|e];
      [apply IH | done].
Qed.

Lemma load_stops_at_bad_record_witness :
  load_entries
    (save_data two_songs
     ++ ("seven", {| qd_items := None; qd_current := None; qd_repeat := None |})
     :: record_without_items) QueueManager_init
  = load_entries (save_data two_songs) QueueManager_init.
Proof.
  apply (load_stops_at_bad_record (save_data two_songs) record_without_items
           "seven" {| qd_items := None; qd_current := None; qd_repeat := None |}
           QueueManager_init).
  left. reflexivity.
Defined.

(** The records of [save_data], exactly. *)
Lemma elem_of_save_data (qm : QueueManager) (key : string) (qd : QueueData) :
  (key, qd) ∈ save_data qm ↔
  ∃ chat_id queue,
    _queues qm !! chat_id = Some queue ∧ queue ≠ [] ∧
    key = py_str chat_id ∧
    qd = {| qd_items := Some (to_dict <$> queue);
            qd_current := Some (current_index qm chat_id);
            qd_repeat := Some (is_repeat_enabled qm chat_id) |}.
Proof.
  unfold save_data. rewrite list_elem_of_omap. split.
  - intros ([k q] & Hin & Hsave).
    apply elem_of_map_to_list in Hin.
    unfold save_entry in Hsave. simpl in Hsave.
    destruct (nonempty q) eqn:Hq; [|done].
    injection Hsave as <- <-.
    exists k, q. by rewrite <- nonempty_true.
  - intros (k & q & Hin & Hne & -> & ->).
    exists (k, q). split; [by apply elem_of_map_to_list|].
    unfold save_entry. simpl. apply nonempty_true in Hne. by rewrite Hne.
Qed.

(** X7. A restart forgets the destinations without items: after
    [save_queues] and [client_ready] such a destination has no items, its
    cursor reads 0 and its repeat flag reads [False], whatever they were
    before. *)
Theorem restart_forgets_empty_destinations (qm : QueueManager)
    (database : Database) (chat_id : Z) :
  let s := VoiceChatNativeMod.client_ready (save_queues qm database) in
  get_queue qm chat_id = [] →
  get_queue (VoiceChatNativeMod.queue_manager s) chat_id = [] ∧
  current_index (VoiceChatNativeMod.queue_manager s) chat_id = 0 ∧
  is_repeat_enabled (VoiceChatNativeMod.queue_manager s) chat_id = false ∧
  get_current (VoiceChatNativeMod.queue_manager s) chat_id = None.
Proof.
  intros s He. subst s. unfold VoiceChatNativeMod.client_ready. simpl.
  unfold load_queues. simpl.
  destruct (load_saved_empty qm QueueManager_init chat_id He) as (Hq & Hc & Hr).
  unfold get_current, get_queue, current_index, is_repeat_enabled.
  by rewrite Hq, Hc, Hr.
Qed.

Lemma restart_forgets_empty_destinations_witness :
  is_repeat_enabled (set_repeat QueueManager_init 7 true) 7 = true ∧
  is_repeat_enabled
    (VoiceChatNativeMod.queue_manager
       (VoiceChatNativeMod.client_ready
          (save_queues (set_repeat QueueManager_init 7 true) None))) 7 = false.
Proof.
  split; [reflexivity|].
  destruct (restart_forgets_empty_destinations
              (set_repeat QueueManager_init 7 true) None 7) as (_ & _ & H & _);
    [reflexivity | exact H].
Defined.

(** X8. Saving is stable across a restart: a manager made anew from the
    saved data saves the same records again. *)
Theorem save_after_restart_is_same (qm : QueueManager) (database : Database)
    (key : string) (qd : QueueData) :
  let s := VoiceChatNativeMod.client_ready (save_queues qm database) in
  (key, qd) ∈ save_data (VoiceChatNativeMod.queue_manager s) ↔
  (key, qd) ∈ save_data qm.
Proof.
  simpl. unfold load_queues. simpl.
  set (qm' := load_entries (save_data qm) QueueManager_init).
  assert (Hsame : ∀ k q, q ≠ [] →
            (_queues qm' !! k = Some q ↔ _queues qm !! k = Some q)).
  { intros k q Hq.
    destruct (decide (get_queue qm k = [])) as [He|Hne].
    - destruct (load_saved_empty qm QueueManager_init k He) as (Hl & _).
      fold qm' in Hl. rewrite Hl. simpl. rewrite lookup_empty.
      split; [done|]. intros Hk. unfold get_queue in He. rewrite Hk in He. done.
    - destruct (_queues qm !! k) as [q0|] eqn:Hk;
        [|by unfold get_queue in Hne; rewrite Hk in Hne].
      assert (q0 ≠ []) by (unfold get_queue in Hne; by rewrite Hk in Hne).
      destruct (load_saved_entry qm (map_to_list (_queues qm)) QueueManager_init
                  k q0) as (Hl & _).
      { apply NoDup_fst_map_to_list. }
      { by apply elem_of_map_to_list. }
      { done. }
      fold (save_data qm) in Hl. fold qm' in Hl. by rewrite Hl. }
  assert (Hrest : ∀ k, get_queue qm k ≠ [] →
            current_index qm' k = current_index qm k ∧
            is_repeat_enabled qm' k = is_repeat_enabled qm k).
  { intros k Hne.
    by destruct (load_saved_nonempty qm QueueManager_init k Hne) as (_ & ? & ?). }
  rewrite !elem_of_save_data. split.
  - intros (k & q & Hk & Hne & -> & ->).
    apply Hsame in Hk; [|done].
    destruct (Hrest k) as [-> ->]; [unfold get_queue; by rewrite Hk|].
    by exists k, q.
  - intros (k & q & Hk & Hne & -> & ->).
    destruct (Hrest k) as [<- <-]; [unfold get_queue; by rewrite Hk|].
    apply Hsame in Hk; [|done].
    by exists k, q.
Qed.

(** ** Temporary files, continued *)

Lemma elem_of_disk_cleanup_file (st : Store) (path p : string) :
  p ∈ disk (cleanup_file st path) ↔ p ∈ disk st ∧ (p ≠ path ∨ p = "").
Proof.
  unfold cleanup_file, path_exists. simpl.
  destruct (String.eqb_spec path "") as [->|Hne]; simpl.
  - split.
    + intros Hp. split; [done|].
      destruct (decide (p = "")); [by right | by left].
    + by intros [Hp _].
  - case_bool_decide as Hin.
    + rewrite elem_of_difference, elem_of_singleton. split.
      * intros [Hp Hpath]. split; [done | by left].
      * intros [Hp [Hpath|Hp0]]; split; try done. by subst p.
    + split.
      * intros Hp. split; [done|]. left. by intros ->.
      * by intros [Hp _].
Qed.

(** X9. [cleanup_file] undoes [create_temp_file] when the name was new:
    the file is created and tracked, and cleaning it up gives back the
    store as it was.  In any store it stops tracking its path, deletes it
    from disk, and leaves every other path as it is. *)
Theorem cleanup_file_undoes_create (os : OS) (st : Store) (suffix path : string) :
  let temp_file := (create_temp_file os st suffix).1 in
  let st1 := (create_temp_file os st suffix).2 in
  (temp_file ∈ disk st1 ∧ temp_file ∈ _temp_files st1) ∧
  (temp_file ≠ "" → temp_file ∉ disk st → temp_file ∉ _temp_files st →
     cleanup_file st1 temp_file = st) ∧
  ((path ∉ _temp_files (cleanup_file st path)) ∧
   (path ≠ "" → path ∉ disk (cleanup_file st path))) ∧
  (∀ p, p ≠ path →
     (p ∈ disk (cleanup_file st path) ↔ p ∈ disk st) ∧
     (p ∈ _temp_files (cleanup_file st path) ↔ p ∈ _temp_files st)).
Proof.
  cbv zeta. split; [|split; [|split]].
  - simpl. split; apply elem_of_union_l, elem_of_singleton_2; done.
  - unfold create_temp_file. cbn [fst snd].
    set (t := tmp_name os (disk st) suffix).
    intros Hne Hd Ht.
    pose proof (cleanup_on_error_releases st t Hne Hd Ht) as Hrel.
    unfold cleanup_on_error, path_exists in Hrel.
    destruct (String.eqb_spec t "") as [?|_]; [done|].
    cbn [negb andb] in Hrel.
    rewrite bool_decide_eq_true_2 in Hrel; [done|].
    simpl. apply elem_of_union_l, elem_of_singleton_2. done.
  - split.
    + simpl. rewrite elem_of_difference, elem_of_singleton. by intros [_ ?].
    + intros Hne. rewrite elem_of_disk_cleanup_file. by intros [_ [?|?]].
  - intros p Hp. split.
    + rewrite elem_of_disk_cleanup_file. split; [by intros [Hd _]|].
      intros Hd. split; [done | by left].
    + simpl. rewrite elem_of_difference, elem_of_singleton.
      split; [by intros [? _] | by intros ?].
Qed.

Lemma cleanup_file_undoes_create_witness :
  cleanup_file (create_temp_file os0 store0 ".mp3").2
    (create_temp_file os0 store0 ".mp3").1 = store0.
Proof.
  destruct (cleanup_file_undoes_create os0 store0 ".mp3" "") as (_ & H & _).
  apply H; [discriminate | |]; simpl; apply not_elem_of_empty.
Defined.

Lemma elem_of_disk_foldl_cleanup_file (l : list string) (st : Store) (p : string) :
  p ∈ disk (foldl cleanup_file st l) ↔ p ∈ disk st ∧ (p ∉ l ∨ p = "").
Proof.
  revert st. induction l as [|path l IH]; intros st; simpl.
  - split; [intros ?; split; [done|left; apply not_elem_of_nil] | by intros [? _]].
  - rewrite IH, elem_of_disk_cleanup_file, not_elem_of_cons.
    split.
    + intros [[Hp Hpath] Hl]. split; [done|].
      destruct Hl as [Hl|Hl]; [|by right].
      destruct Hpath as [Hpath|Hpath]; [by left | by right].
    + intros [Hp [[Hne Hl]|Hp0]]; (split; [split|]); auto.
Qed.

(** X10. [cleanup_all] stops tracking everything, deletes every tracked
    file from disk and leaves the files it did not track. *)
Theorem cleanup_all_deletes_tracked (st : Store) (p : string) :
  _temp_files (cleanup_all st) = ∅ ∧
  (p ∈ disk (cleanup_all st) ↔ p ∈ disk st ∧ (p ∉ _temp_files st ∨ p = "")).
Proof.
  split; [done|].
  unfold cleanup_all. simpl.
  rewrite elem_of_disk_foldl_cleanup_file, elem_of_elements. done.
Qed.

(** ** Source resolvers, continued *)

Lemma write_chunks_true (max_size downloaded_size : Z) (chunks : list Z)
    (broken : bool) :
  write_chunks max_size downloaded_size chunks broken = true →
  downloaded_size <= max_size →
  broken = false ∧ downloaded_size + foldr Z.add 0 chunks <= max_size.
Proof.
  revert downloaded_size.
  induction chunks as [|len_chunk chunks IH]; intros downloaded_size; simpl.
  - intros Hb Hle. split; [by destruct broken | lia].
  - destruct (max_size <? downloaded_size + len_chunk) eqn:Hcap; [done|].
    intros Hw _. destruct (IH _ Hw) as [Hb Hsum]; [lia|].
    split; [done | lia].
Qed.

(** X11. When the direct-URL resolver fails, the store is as it was
    before the call, except on one path: a [GET] answered with a status
    other than 200, which leaves the new temporary file on disk and
    tracked.  (The names the operating system hands out are taken to be
    new.) *)
Theorem direct_url_failure_store (os : OS) (http : Http) (st st' : Store)
    (url : string) (metadata : option Metadata) :
  (∀ suffix, tmp_name os (disk st) suffix ≠ "" ∧
             (tmp_name os (disk st) suffix ∉ disk st) ∧
             (tmp_name os (disk st) suffix ∉ _temp_files st)) →
  DirectURLSourceResolver_resolve os http st url metadata = (None, st') →
  st' = st ∨
  ∃ content_type response,
    head_check http url = HeadProceed content_type ∧
    http_get http url = Return response ∧ get_status response ≠ 200 ∧
    st' = create_temp_file_store st
            (tmp_name os (disk st) (suffix_of_content_type content_type)).
Proof.
  intros Hfresh. unfold DirectURLSourceResolver_resolve, create_temp_file.
  destruct (aiohttp_installed http); simpl; [|intros [= <-]; by left].
  destruct (head_check http url) as [|content_type] eqn:Hhead;
    [intros [= <-]; by left|].
  destruct (Hfresh (suffix_of_content_type content_type)) as (Hne & Hd & Ht).
  pose proof (cleanup_on_error_releases st _ Hne Hd Ht) as Hrel.
  destruct (http_get http url) as [response|e] eqn:Hget;
    [|intros [= <-]; by left].
  destruct (get_status response =? 200) eqn:Hstatus.
  - destruct (write_chunks _ _ _ _); [done|]. intros [= <-]. by left.
  - intros [= <-]. right. exists content_type, response.
    split_and!; try done. lia.
Qed.

Lemma direct_url_failure_store_witness :
  (DirectURLSourceResolver_resolve os0 http_150mb store0
     "https://example.org/a.mp3" None).2 = store0.
Proof.
  destruct (direct_url_failure_store os0 http_150mb store0
              (DirectURLSourceResolver_resolve os0 http_150mb store0
                 "https://example.org/a.mp3" None).2
              "https://example.org/a.mp3" None) as [H|H].
  - intros suffix. split; [by destruct suffix|].
    split; simpl; apply not_elem_of_empty.
  - reflexivity.
  - exact H.
  - destruct H as (ct & r & _ & Hr & Hs & _).
    injection Hr as <-. by destruct Hs.
Defined.

(** X12. The direct-URL resolver returns an entry only after a [GET]
    answered 200 whose transfer ran to its end with no more than 100 MB
    in all; the entry names the new temporary file, which is on disk and
    tracked, has source type [url] and duration 0, and is a video exactly
    when the content type says so. *)
Theorem direct_url_success (os : OS) (http : Http) (st st' : Store)
    (url : string) (metadata : option Metadata) (item : QueueItem) :
  DirectURLSourceResolver_resolve os http st url metadata = (Some item, st') →
  ∃ content_type response,
    head_check http url = HeadProceed content_type ∧
    http_get http url = Return response ∧
    get_status response = 200 ∧ get_broken response = false ∧
    foldr Z.add 0 (get_chunks response) <= 100 * 1024 * 1024 ∧
    file_path item = tmp_name os (disk st) (suffix_of_content_type content_type) ∧
    file_path item ∈ disk st' ∧ file_path item ∈ _temp_files st' ∧
    source_type item = "url" ∧ duration item = 0 ∧
    is_video item = str_in "video" content_type.
Proof.
  unfold DirectURLSourceResolver_resolve, create_temp_file.
  destruct (aiohttp_installed http); simpl; [|done].
  destruct (head_check http url) as [|content_type] eqn:Hhead; [done|].
  destruct (http_get http url) as [response|e] eqn:Hget; [|done].
  destruct (get_status response =? 200) eqn:Hstatus; [|done].
  destruct (write_chunks _ _ _ _) eqn:Hw; [|done].
  intros [= <- <-]. exists content_type, response. simpl.
  destruct (write_chunks_true _ _ _ _ Hw) as [Hb Hsum]; [lia|].
  split_and!; try done; try lia;
    apply elem_of_union_l, elem_of_singleton_2; done.
Qed.

Lemma direct_url_success_witness :
  foldr Z.add 0 [8192; 8192; 100] <= 100 * 1024 * 1024 ∧
  file_path downloaded ∈ _temp_files
    (create_temp_file_store store0 "/tmp/tmpq8r2_x1z.m4a").
Proof.
  destruct (direct_url_success os0 http_ok store0
              (create_temp_file_store store0 "/tmp/tmpq8r2_x1z.m4a")
              "https://example.org/a.mp3" None downloaded)
    as (ct & r & _ & Hr & _ & _ & Hsum & _ & _ & Ht & _); [reflexivity|].
  injection Hr as <-. split; [exact Hsum | exact Ht].
Defined.

(** X13. The platform resolver does nothing at all without yt-dlp or
    ffmpeg.  An entry it returns is always audio with source type
    [youtube]; the probe answered, reported at most 3600 seconds, which is
    the duration of the entry, and the download did not raise. *)
Theorem youtube_success (caps : Capabilities) (os : OS) (ydl : YoutubeDL)
    (st st' : Store) (url : string) (metadata : option Metadata)
    (item : QueueItem) :
  (YT_DLP_AVAILABLE caps = false ∨ FFMPEG_AVAILABLE caps = false →
     YouTubeSourceResolver_resolve caps os ydl st url metadata = (None, st)) ∧
  (YouTubeSourceResolver_resolve caps os ydl st url metadata = (Some item, st') →
     ∃ info,
       extract_info ydl url = Return info ∧
       duration item = default 0 (info_duration info) ∧
       duration item <= 3600 ∧
       title item = default "Unknown" (info_title info) ∧
       is_video item = false ∧ source_type item = "youtube" ∧
       (download ydl url).2 = Return tt ∧
       added_by item = metadata_user_id metadata).
Proof.
  unfold YouTubeSourceResolver_resolve, create_temp_file. split.
  - intros [-> | ->]; [done|]. by destruct (YT_DLP_AVAILABLE caps).
  - destruct (YT_DLP_AVAILABLE caps); simpl; [|done].
    destruct (FFMPEG_AVAILABLE caps); simpl; [|done].
    destruct (extract_info ydl url) as [info|e]; [|done].
    destruct (3600 <? default 0 (info_duration info)) eqn:Hlong; [done|].
    destruct (download ydl url) as [exts [[]|e]]; [|done].
    intros H. exists info.
    destruct (glob_dot _ _ _) as [|f fs]; [|destruct (negb (endswith f ".mp3"))];
      injection H as <- <-; simpl; split_and!; try done; lia.
Qed.

Lemma youtube_success_witness :
  YouTubeSourceResolver_resolve
    {| YT_DLP_AVAILABLE := true; FFMPEG_AVAILABLE := false |} os0 ydl_long
    store0 "https://youtu.be/x" None = (None, store0).
Proof.
  destruct (youtube_success
              {| YT_DLP_AVAILABLE := true; FFMPEG_AVAILABLE := false |} os0
              ydl_long store0 store0 "https://youtu.be/x" None song) as [H _].
  apply H. by right.
Defined.

Lemma str_in_char_cons (a c : Ascii.ascii) (s : string) :
  str_in (String a EmptyString) (String c s)
  = bool_decide (a = c) || str_in (String a EmptyString) s.
Proof.
  cbn [str_in String.prefix].
  destruct (Ascii.ascii_dec a c) as [->|Hne].
  - rewrite bool_decide_eq_true_2 by done. by destruct s.
  - by rewrite bool_decide_eq_false_2 by done.
Qed.

Lemma split_last_no_sep (sep : Ascii.ascii) (s : string) :
  str_in (String sep EmptyString) (split_last sep s) = false.
Proof.
  induction s as [|c s IH]; [done|].
  cbn [split_last].
  destruct (Ascii.eqb_spec c sep) as [->|Hne]; [done|].
  destruct (str_in (String sep EmptyString) s) eqn:Hin; [done|].
  rewrite str_in_char_cons, Hin.
  by rewrite bool_decide_eq_false_2 by done.
Qed.

Lemma split_first_no_sep (sep : Ascii.ascii) (s : string) :
  str_in (String sep EmptyString) (split_first sep s) = false.
Proof.
  induction s as [|c s IH]; [done|].
  cbn [split_first].
  destruct (Ascii.eqb_spec c sep) as [->|Hne]; [done|].
  rewrite str_in_char_cons, IH.
  by rewrite bool_decide_eq_false_2 by done.
Qed.

Lemma split_first_keeps_absent (a sep : Ascii.ascii) (s : string) :
  str_in (String a EmptyString) s = false →
  str_in (String a EmptyString) (split_first sep s) = false.
Proof.
  induction s as [|c s IH]; [done|].
  rewrite str_in_char_cons. intros [Hac Hs]%orb_false_elim.
  cbn [split_first]. destruct (Ascii.eqb c sep); [done|].
  by rewrite str_in_char_cons, Hac, IH.
Qed.

(** X14. The title the direct-URL resolver gives an entry is never empty;
    when the metadata carry no title it is taken from the URL and holds
    neither a slash nor a question mark. *)
Theorem url_title_shape (url : string) (metadata : option Metadata) :
  url_title url metadata ≠ "" ∧
  ((∀ m, metadata = Some m → md_title m = None) →
     str_in "/" (url_title url metadata) = false ∧
     str_in "?" (url_title url metadata) = false).
Proof.
  assert (Hurl : ∀ t,
    t = (let t := split_last "/"%char url in
         let t := if str_in "?" t then split_first "?"%char t else t in
         if String.eqb t "" || String.eqb t "/" then "Downloaded Media" else t) →
    t ≠ "" ∧ str_in "/" t = false ∧ str_in "?" t = false).
  { intros t ->. cbv zeta.
    set (t1 := split_last "/"%char url).
    assert (H1 : str_in "/" t1 = false) by apply split_last_no_sep.
    set (t2 := if str_in "?" t1 then split_first "?"%char t1 else t1).
    assert (H2 : str_in "/" t2 = false ∧ str_in "?" t2 = false).
    { subst t2. destruct (str_in "?" t1) eqn:Hq; [|done].
      split; [by apply split_first_keeps_absent | apply split_first_no_sep]. }
    destruct (String.eqb_spec t2 "") as [->|Hne]; [done|].
    destruct (String.eqb_spec t2 "/") as [->|Hne']; [done|].
    simpl. by destruct H2. }
  unfold url_title. split.
  - destruct (match metadata with Some _ => _ | None => _ end) as [[|c t]|];
      try done; by apply Hurl.
  - intros Hnone.
    replace (match metadata with
             | Some m => if metadata_truthy m then md_title m else None
             | None => None
             end) with (@None string).
    + by apply Hurl.
    + destruct metadata as [m|]; [|done].
      rewrite (Hnone m eq_refl). by destruct (metadata_truthy m).
Qed.

Lemma url_title_shape_witness :
  str_in "/" (url_title "https://example.org/music/a.mp3?token=1/2"
                (Some {| md_user_id := Some 42; md_title := None;
                         md_is_video := Some false |})) = false.
Proof.
  destruct (url_title_shape "https://example.org/music/a.mp3?token=1/2"
              (Some {| md_user_id := Some 42; md_title := None;
                       md_is_video := Some false |})) as [_ H].
  apply H. intros m Hm. injection Hm as <-. reflexivity.
Defined.

(** X15. When the attachment resolver fails, the store is as it was
    before the call: no message or media, a size above 200 MB and an
    unknown kind are refused before a file is made, and a download that
    raises goes through the handler.  (The names the operating system
    hands out are taken to be new.) *)
Theorem telegram_failure_store (os : OS)
    (download_media : Message → string → result unit) (st st' : Store)
    (message : option Message) (metadata : option Metadata) :
  (∀ suffix, tmp_name os (disk st) suffix ≠ "" ∧
             (tmp_name os (disk st) suffix ∉ disk st) ∧
             (tmp_name os (disk st) suffix ∉ _temp_files st)) →
  TelegramMediaSourceResolver_resolve os download_media st message metadata
  = (None, st') →
  st' = st.
Proof.
  intros Hfresh. unfold TelegramMediaSourceResolver_resolve, create_temp_file.
  destruct message as [m|]; [|by intros [= <-]].
  destruct (media m); simpl; [|by intros [= <-]].
  destruct (_ <? _); [by intros [= <-]|].
  destruct (message_plan m) as [[[[suffix title] duration] is_video]|];
    [|by intros [= <-]].
  destruct (Hfresh suffix) as (Hne & Hd & Ht).
  pose proof (cleanup_on_error_releases st _ Hne Hd Ht) as Hrel.
  destruct (String.eqb (tmp_name os (disk st) suffix) "") eqn:Heq;
    [by apply String.eqb_eq in Heq|].
  destruct (download_media m _); [done|].
  intros [= <-]. unfold cleanup_on_error in Hrel.
  rewrite Heq in Hrel. exact Hrel.
Qed.

Lemma telegram_failure_store_witness :
  (TelegramMediaSourceResolver_resolve os0 download_fails store0
     (Some voice_note) None).2 = store0.
Proof.
  apply (telegram_failure_store os0 download_fails store0 _ (Some voice_note) None).
  - intros suffix. split; [by destruct suffix|].
    split; simpl; apply not_elem_of_empty.
  - reflexivity.
Defined.

(** X16. An entry the attachment resolver returns comes from a message
    with media of at most 200 MB whose download did not raise; it names
    the new temporary file, which is on disk and tracked, and has source
    type [telegram].  A message without a document is a video entry
    exactly when it has no audio, and a document whose type starts with
    [video/] is always a video entry. *)
Theorem telegram_success (os : OS)
    (download_media : Message → string → result unit) (st st' : Store)
    (message : option Message) (metadata : option Metadata) (item : QueueItem) :
  TelegramMediaSourceResolver_resolve os download_media st message metadata
  = (Some item, st') →
  ∃ m,
    message = Some m ∧ media m = true ∧
    message_file_size m <= 200 * 1024 * 1024 ∧
    download_media m (file_path item) = Return tt ∧
    file_path item ∈ disk st' ∧ file_path item ∈ _temp_files st' ∧
    source_type item = "telegram" ∧
    (document m = None → is_video item = bool_decide (audio m = None)) ∧
    (∀ d, document m = Some d →
          String.prefix "video/" (default "" (doc_mime_type d)) = true →
          is_video item = true).
Proof.
  unfold TelegramMediaSourceResolver_resolve, create_temp_file.
  destruct message as [m|]; [|done].
  destruct (media m) eqn:Hmedia; simpl; [|done].
  destruct (_ <? _) eqn:Hsize; [done|].
  destruct (message_plan m) as [[[[suffix title] duration] is_video]|] eqn:Hplan;
    [|done].
  destruct (String.eqb (tmp_name os (disk st) suffix) ""); [done|].
  destruct (download_media m _) as [[]|e] eqn:Hdl; [|done].
  intros [= <- <-]. exists m. simpl.
  split_and!; try done; try lia;
    try (apply elem_of_union_l, elem_of_singleton_2; done).
  - intros Hdoc. unfold message_plan in Hplan. rewrite Hdoc in Hplan.
    destruct (audio m), (video m); by simplify_eq.
  - intros d Hdoc Hvideo. unfold message_plan in Hplan. rewrite Hdoc in Hplan.
    unfold document_kind in Hplan. rewrite Hvideo in Hplan.
    destruct (foldl _ _ _) as [t dur].
    repeat (destruct (_ || _) in Hplan); simpl in Hplan; by simplify_eq.
Qed.

Lemma telegram_success_witness :
  ∃ m, Some voice_note = Some m ∧ media m = true ∧
       message_file_size m <= 200 * 1024 * 1024.
Proof.
  destruct (telegram_success os0 download_works store0
              (create_temp_file_store store0 "/tmp/tmpq8r2_x1z.mp3")
              (Some voice_note) None
              {| file_path := "/tmp/tmpq8r2_x1z.mp3"; title := "Ann - Note";
                 duration := 30; is_video := false; source_type := "telegram";
                 added_by := 0; timestamp := 0 |})
    as (m & Hm & Hmedia & Hsize & _); [reflexivity|].
  exists m. split; [exact Hm|]. split; [exact Hmedia | exact Hsize].
Defined.

(** ** The streaming backend, continued *)

Lemma try_join_accepts (ctl : PyrogramTgCallsBackend.Control) (b : Backend)
    (chat_id : Z) :
  has_pytgcalls b = true →
  PyrogramTgCallsBackend.has_join_group_call ctl = true →
  PyrogramTgCallsBackend.try_join ctl b chat_id = Return tt ↔
  (PyrogramTgCallsBackend.import_audio_parameters ctl = Return tt ∧
   PyrogramTgCallsBackend.join_answer ctl
     PyrogramTgCallsBackend.JoinWithParameters chat_id = Return tt) ∨
  PyrogramTgCallsBackend.join_answer ctl
    PyrogramTgCallsBackend.JoinBare chat_id = Return tt ∨
  PyrogramTgCallsBackend.join_answer ctl
    PyrogramTgCallsBackend.JoinWithEmptyString chat_id = Return tt.
Proof.
  intros Hp Hj.
  unfold PyrogramTgCallsBackend.try_join, PyrogramTgCallsBackend.call_join.
  rewrite Hp, Hj. simpl.
  destruct (PyrogramTgCallsBackend.import_audio_parameters ctl) as [[]|e0];
    destruct (PyrogramTgCallsBackend.join_answer ctl
                PyrogramTgCallsBackend.JoinWithParameters chat_id) as [[]|e1];
    destruct (PyrogramTgCallsBackend.join_answer ctl
                PyrogramTgCallsBackend.JoinBare chat_id) as [[]|e2];
    destruct (PyrogramTgCallsBackend.join_answer ctl
                PyrogramTgCallsBackend.JoinWithEmptyString chat_id) as [[]|e3];
    split; try (intros [[? ?]|[?|?]]); try done; auto.
Qed.

(** X17. [join_voice_chat] fails on a backend that is not initialised and
    does nothing, successfully, on a chat already joined.  On a chat not
    yet joined it succeeds exactly when one of the three shapes of the
    call is accepted (the one with parameters needs their import); it then
    records an idle session, joined and not playing, and on failure it
    leaves the backend as it was. *)
Theorem join_voice_chat_outcomes (ctl : PyrogramTgCallsBackend.Control)
    (now : Z) (b : Backend) (chat_id : Z) :
  let r := PyrogramTgCallsBackend.join_voice_chat ctl now b chat_id in
  (is_initialized b = false → r = (false, b)) ∧
  (is_initialized b = true → is_in_call b chat_id = true → r = (true, b)) ∧
  (is_initialized b = true → is_in_call b chat_id = false →
     (r.1 = false → r.2 = b) ∧
     (r.1 = true →
        active_calls r.2
        = <[chat_id := {| joined_at := now; current_stream := None;
                          is_paused := false |}]> (active_calls b) ∧
        is_in_call r.2 chat_id = true ∧ is_playing r.2 chat_id = false) ∧
     (has_pytgcalls b = true →
      PyrogramTgCallsBackend.has_join_group_call ctl = true →
        r.1 = true ↔
        (PyrogramTgCallsBackend.import_audio_parameters ctl = Return tt ∧
         PyrogramTgCallsBackend.join_answer ctl
           PyrogramTgCallsBackend.JoinWithParameters chat_id = Return tt) ∨
        PyrogramTgCallsBackend.join_answer ctl
          PyrogramTgCallsBackend.JoinBare chat_id = Return tt ∨
        PyrogramTgCallsBackend.join_answer ctl
          PyrogramTgCallsBackend.JoinWithEmptyString chat_id = Return tt)).
Proof.
  cbv zeta. unfold PyrogramTgCallsBackend.join_voice_chat, is_in_call.
  split; [by intros ->|]. split.
  - intros -> Hin. apply bool_decide_eq_true in Hin as [info ->]. done.
  - intros -> Hin. apply bool_decide_eq_false in Hin.
    destruct (active_calls b !! chat_id) as [info|] eqn:Hinfo;
      [by destruct Hin|].
    simpl. split; [|split].
    + by destruct (PyrogramTgCallsBackend.try_join ctl b chat_id).
    + destruct (PyrogramTgCallsBackend.try_join ctl b chat_id); [|done].
      intros _. simpl. split; [done|].
      unfold is_playing. simpl. rewrite lookup_insert_eq. split; [|done].
      apply bool_decide_eq_true. by eexists.
    + intros Hp Hj. rewrite <- (try_join_accepts ctl b chat_id Hp Hj).
      by destruct (PyrogramTgCallsBackend.try_join ctl b chat_id) as [[]|e].
Qed.

Lemma join_voice_chat_outcomes_witness :
  (PyrogramTgCallsBackend.join_voice_chat ctl_old_api 5 backend_ready 7).1 = true.
Proof.
  destruct (join_voice_chat_outcomes ctl_old_api 5 backend_ready 7)
    as (_ & _ & H).
  destruct H as (_ & _ & H); [reflexivity | reflexivity |].
  apply H; [reflexivity | reflexivity |]. right. left. reflexivity.
Defined.

(** X18. A session made by [join_voice_chat] has no stream, so the first
    [play_media] on it calls [join_group_call] again, now with the stream,
    rather than [change_stream]; that is the one stream call it makes,
    and after it the chat is playing and not paused. *)
Theorem join_then_play_joins_with_stream
    (ctl : PyrogramTgCallsBackend.Control) (lib : PyTgCalls)
    (fs : gset string) (now later : Z) (b : Backend) (chat_id : Z)
    (f : string) (v : bool) (q : string) :
  let b1 := (PyrogramTgCallsBackend.join_voice_chat ctl now b chat_id).2 in
  let r := play_media lib fs later b1 chat_id f v q in
  is_in_call b chat_id = false →
  (PyrogramTgCallsBackend.join_voice_chat ctl now b chat_id).1 = true →
  import_types lib = Return tt → path_exists fs f = true →
  invoke lib (issued b1) (join_group_call chat_id (make_stream f v q))
  = Return tt →
  has_active_stream b1 chat_id = false ∧
  r.1 = true ∧
  issued r.2 = issued b1 ++ [join_group_call chat_id (make_stream f v q)] ∧
  active_calls r.2 !! chat_id
  = Some {| joined_at := later; current_stream := Some f;
            is_paused := false |} ∧
  is_playing r.2 chat_id = true ∧
  PyrogramTgCallsBackend.is_paused r.2 chat_id = false.
Proof.
  intros b1 r Hin Hjoin Himp He Hinv. subst r.
  assert (Hb1 : is_initialized b1 = true ∧ has_pytgcalls b1 = true ∧
                has_active_stream b1 chat_id = false).
  { subst b1. unfold PyrogramTgCallsBackend.join_voice_chat in *.
    destruct (is_initialized b) eqn:Hi; [|done]. cbn [negb] in *.
    apply bool_decide_eq_false in Hin.
    destruct (active_calls b !! chat_id) as [info|] eqn:Hinfo;
      [destruct Hin; by eexists|].
    destruct (PyrogramTgCallsBackend.try_join ctl b chat_id) eqn:Htry; [|done].
    cbn [snd]. split; [done|].
    split.
    - unfold PyrogramTgCallsBackend.try_join, PyrogramTgCallsBackend.call_join
        in Htry.
      simpl. destruct (has_pytgcalls b); [done|]. simpl in Htry.
      by destruct (PyrogramTgCallsBackend.import_audio_parameters ctl).
    - unfold has_active_stream. simpl. by rewrite lookup_insert_eq. }
  destruct Hb1 as (Hi1 & Hp1 & Hs1).
  split; [done|].
  destruct (play_media_joins lib fs later b1 chat_id f v q)
    as (b' & -> & Hiss & Hac & _ & _ & Hact); try done.
  simpl. split; [done|]. split; [done|]. split; [done|].
  unfold is_playing, PyrogramTgCallsBackend.is_paused. rewrite Hac. simpl.
  split; [|done]. rewrite andb_true_r. exact (path_exists_truthy _ _ He).
Qed.

Lemma join_then_play_joins_with_stream_witness :
  issued
    (play_media lib_ok {[file_path song]} 6
       (PyrogramTgCallsBackend.join_voice_chat ctl_old_api 5 backend_ready 7).2
       7 (file_path song) false "medium").2
  = issued (PyrogramTgCallsBackend.join_voice_chat ctl_old_api 5 backend_ready 7).2
    ++ [join_group_call 7 (AudioPiped (file_path song) "medium")].
Proof.
  destruct (join_then_play_joins_with_stream ctl_old_api lib_ok
              {[file_path song]} 5 6 backend_ready 7 (file_path song) false
              "medium") as (_ & _ & H & _);
    [reflexivity.. | exact H].
Defined.

Lemma is_playing_inv (b : Backend) (chat_id : Z) :
  is_playing b chat_id = true →
  ∃ info, active_calls b !! chat_id = Some info ∧
          str_truthy (current_stream info) = true ∧ is_paused info = false.
Proof.
  unfold is_playing. destruct (active_calls b !! chat_id) as [info|]; [|done].
  intros [Hs Hp]%andb_true_iff. exists info.
  split; [done|]. split; [done|]. by destruct (is_paused info).
Qed.

(** X19. On a chat that is playing, a [pause_stream] that the library
    accepts leaves the chat paused and not playing, and a [resume_stream]
    that the library accepts then gives back the backend as it was before
    the pause.  Without a session, or on a library without the method,
    either call fails and changes nothing. *)
Theorem pause_then_resume (ctl : PyrogramTgCallsBackend.Control)
    (b : Backend) (chat_id : Z) :
  let r1 := PyrogramTgCallsBackend.pause_stream ctl b chat_id in
  (is_in_call b chat_id = false →
     r1 = (false, b) ∧
     PyrogramTgCallsBackend.resume_stream ctl b chat_id = (false, b)) ∧
  (PyrogramTgCallsBackend.has_pause_stream ctl = false → r1 = (false, b)) ∧
  (PyrogramTgCallsBackend.has_resume_stream ctl = false →
     PyrogramTgCallsBackend.resume_stream ctl b chat_id = (false, b)) ∧
  (is_playing b chat_id = true → has_pytgcalls b = true →
   PyrogramTgCallsBackend.has_pause_stream ctl = true →
   PyrogramTgCallsBackend.pause_answer ctl chat_id = Return tt →
     r1.1 = true ∧
     PyrogramTgCallsBackend.is_paused r1.2 chat_id = true ∧
     is_playing r1.2 chat_id = false ∧
     is_in_call r1.2 chat_id = true ∧
     (PyrogramTgCallsBackend.has_resume_stream ctl = true →
      PyrogramTgCallsBackend.resume_answer ctl chat_id = Return tt →
        PyrogramTgCallsBackend.resume_stream ctl r1.2 chat_id = (true, b))).
Proof.
  cbv zeta.
  unfold PyrogramTgCallsBackend.pause_stream,
    PyrogramTgCallsBackend.resume_stream.
  split; [|split; [|split]].
  - intros Hin. apply bool_decide_eq_false in Hin.
    destruct (active_calls b !! chat_id); [destruct Hin; by eexists | done].
  - intros ->. rewrite andb_false_r. by destruct (active_calls b !! chat_id).
  - intros ->. rewrite andb_false_r. by destruct (active_calls b !! chat_id).
  - intros (info & Hinfo & Hs & Hpaused)%is_playing_inv Hp Hhas Hans.
    rewrite Hinfo, Hp, Hhas, Hans. simpl.
    unfold PyrogramTgCallsBackend.is_paused, is_playing, is_in_call. simpl.
    rewrite lookup_insert_eq. simpl. rewrite andb_false_r.
    split_and!; try done.
    intros -> ->. rewrite Hp. simpl. f_equal.
    unfold PyrogramTgCallsBackend.set_paused, with_active_calls. simpl.
    rewrite insert_insert_eq.
    destruct b as [bi bp bac biss blog], info as [j c p]. simpl in *. subst p.
    f_equal. by apply insert_id.
Qed.

Lemma pause_then_resume_witness :
  PyrogramTgCallsBackend.resume_stream ctl_old_api
    (PyrogramTgCallsBackend.pause_stream ctl_old_api backend_playing 7).2 7
  = (true, backend_playing).
Proof.
  destruct (pause_then_resume ctl_old_api backend_playing 7) as (_ & _ & _ & H).
  destruct H as (_ & _ & _ & _ & H); [reflexivity.. |].
  apply H; reflexivity.
Defined.

Lemma call_lib_active_calls (lib : PyTgCalls) (b : Backend) (c : LibCall) :
  active_calls (call_lib lib b c).2 = active_calls b.
Proof. unfold call_lib. by destruct (has_pytgcalls b). Qed.

(** X20. No call of the backend on one chat touches the session of
    another chat. *)
Theorem backend_calls_keep_other_sessions (lib : PyTgCalls)
    (ctl : PyrogramTgCallsBackend.Control) (fs : gset string) (now : Z)
    (b : Backend) (chat_id other : Z) (f : string) (v : bool) (q : string) :
  other ≠ chat_id →
  active_calls (play_media lib fs now b chat_id f v q).2 !! other
  = active_calls b !! other ∧
  active_calls (leave_voice_chat lib b chat_id).2 !! other
  = active_calls b !! other ∧
  active_calls (stop_stream lib b chat_id).2 !! other
  = active_calls b !! other ∧
  active_calls (PyrogramTgCallsBackend.join_voice_chat ctl now b chat_id).2 !! other
  = active_calls b !! other ∧
  active_calls (PyrogramTgCallsBackend.pause_stream ctl b chat_id).2 !! other
  = active_calls b !! other ∧
  active_calls (PyrogramTgCallsBackend.resume_stream ctl b chat_id).2 !! other
  = active_calls b !! other.
Proof.
  intros Hne.
  assert (Hleave : active_calls (leave_voice_chat lib b chat_id).2 !! other
                   = active_calls b !! other).
  { unfold leave_voice_chat.
    destruct (active_calls b !! chat_id); [|done].
    pose proof (call_lib_active_calls lib b (leave_group_call chat_id)) as Hc.
    destruct (call_lib lib b (leave_group_call chat_id)) as [[u|e] b1];
      simpl in *; rewrite Hc; by rewrite lookup_delete_ne. }
  split_and!.
  - unfold play_media.
    destruct (negb (is_initialized b)); [done|].
    destruct (negb (path_exists fs f)); [done|].
    destruct (import_types lib) as [u|e];
      [|by destruct (is_import_or_attribute_error e)].
    destruct (has_active_stream b chat_id).
    + pose proof (call_lib_active_calls lib b
                    (change_stream chat_id (make_stream f v q))) as Hc.
      destruct (call_lib lib b _) as [[u'|e] b1]; simpl in Hc.
      * destruct (active_calls b1 !! chat_id); simpl; rewrite Hc;
          by rewrite ?lookup_insert_ne by done.
      * destruct (is_import_or_attribute_error e); simpl; by rewrite Hc.
    + pose proof (call_lib_active_calls lib b
                    (join_group_call chat_id (make_stream f v q))) as Hc.
      destruct (call_lib lib b _) as [[u'|e] b1]; simpl in Hc.
      * simpl. rewrite lookup_insert_eq. simpl. rewrite Hc.
        by rewrite !lookup_insert_ne by done.
      * destruct (is_import_or_attribute_error e); simpl; by rewrite Hc.
  - done.
  - unfold stop_stream. destruct (active_calls b !! chat_id); [|done].
    by destruct (leave_voice_chat lib b chat_id).
  - unfold PyrogramTgCallsBackend.join_voice_chat.
    repeat (case_match; simpl; try done); by rewrite lookup_insert_ne.
  - unfold PyrogramTgCallsBackend.pause_stream.
    repeat (case_match; simpl; try done); by rewrite lookup_insert_ne.
  - unfold PyrogramTgCallsBackend.resume_stream.
    repeat (case_match; simpl; try done); by rewrite lookup_insert_ne.
Qed.

Lemma backend_calls_keep_other_sessions_witness :
  active_calls (leave_voice_chat lib_ok backend_playing 8).2 !! 7
  = active_calls backend_playing !! 7.
Proof.
  destruct (backend_calls_keep_other_sessions lib_ok ctl_old_api ∅ 0
              backend_playing 8 7 "" false "") as (_ & H & _);
    [discriminate | exact H].
Defined.

(** X21. After [cleanup] the backend is not initialised and holds no
    session, no PyTgCalls and no client, whatever the library answered.
    The object is then inert: no chat is joined, playing or paused;
    [play_media], [join_voice_chat], [pause_stream], [resume_stream] and
    [stop_stream] return [False] and [leave_voice_chat] returns [True],
    none of them changing a field; and a second [cleanup] changes
    nothing. *)
Theorem cleanup_tears_down (lib : PyTgCalls)
    (h : PyrogramTgCallsBackend.Handles) :
  let h' := PyrogramTgCallsBackend.cleanup lib h in
  let b' := PyrogramTgCallsBackend.backend h' in
  is_initialized b' = false ∧ has_pytgcalls b' = false ∧
  active_calls b' = ∅ ∧
  PyrogramTgCallsBackend.has_client h' = false ∧
  (∀ chat_id,
     is_in_call b' chat_id = false ∧ is_playing b' chat_id = false ∧
     PyrogramTgCallsBackend.is_paused b' chat_id = false) ∧
  (∀ lib' fs now chat_id f v q,
     play_media lib' fs now b' chat_id f v q
     = (false, logging LogNotInitialized b')) ∧
  (∀ ctl now chat_id,
     PyrogramTgCallsBackend.join_voice_chat ctl now b' chat_id = (false, b') ∧
     PyrogramTgCallsBackend.pause_stream ctl b' chat_id = (false, b') ∧
     PyrogramTgCallsBackend.resume_stream ctl b' chat_id = (false, b')) ∧
  (∀ lib' chat_id,
     stop_stream lib' b' chat_id = (false, b') ∧
     leave_voice_chat lib' b' chat_id = (true, b')) ∧
  (∀ lib', PyrogramTgCallsBackend.cleanup lib' h' = h').
Proof.
  cbv zeta. unfold PyrogramTgCallsBackend.cleanup. simpl.
  split_and!; done.
Qed.

(** X22. [initialize] succeeds exactly when streaming is available and
    both the client and PyTgCalls start; the backend is then initialised
    with its sessions as they were.  When it fails the backend has been
    torn down: it holds no session and no client, and a [play_media] on it
    fails as not initialised without a call to the library. *)
Theorem initialize_outcomes (env : PyrogramTgCallsBackend.Pyrogram)
    (lib : PyTgCalls) (h : PyrogramTgCallsBackend.Handles) (api_id : Z)
    (api_hash : string) (session_string : option string) :
  let r := PyrogramTgCallsBackend.initialize env lib h api_id api_hash
             session_string in
  let b' := PyrogramTgCallsBackend.backend r.2 in
  (r.1 = true ↔
   PyrogramTgCallsBackend.STREAMING_AVAILABLE env = true ∧
   PyrogramTgCallsBackend.client_start env api_id api_hash session_string
   = Return tt ∧
   PyrogramTgCallsBackend.pytgcalls_start env = Return tt) ∧
  (r.1 = true →
     is_initialized b' = true ∧ has_pytgcalls b' = true ∧
     PyrogramTgCallsBackend.has_client r.2 = true ∧
     active_calls b' = active_calls (PyrogramTgCallsBackend.backend h)) ∧
  (r.1 = false →
     is_initialized b' = false ∧ active_calls b' = ∅ ∧
     PyrogramTgCallsBackend.has_client r.2 = false ∧
     ∀ lib' fs now chat_id f v q,
       play_media lib' fs now b' chat_id f v q
       = (false, logging LogNotInitialized b')).
Proof.
  cbv zeta. unfold PyrogramTgCallsBackend.initialize.
  destruct (PyrogramTgCallsBackend.STREAMING_AVAILABLE env); simpl.
  2: { split_and!; try done. split; [done | by intros (? & _)]. }
  destruct (PyrogramTgCallsBackend.client_start env api_id api_hash
              session_string) as [[]|e]; simpl.
  2: { split_and!; try done. split; [done | by intros (_ & ? & _)]. }
  destruct (PyrogramTgCallsBackend.pytgcalls_start env) as [[]|e]; simpl.
  - split_and!; done.
  - split_and!; try done. split; [done | by intros (_ & _ & ?)].
Qed.

Lemma initialize_outcomes_witness :
  active_calls
    (PyrogramTgCallsBackend.backend
       (PyrogramTgCallsBackend.initialize pyrogram_half_up lib_ok
          {| PyrogramTgCallsBackend.backend := backend_playing;
             PyrogramTgCallsBackend.has_client := false |}
          12345 "hash" None).2) = ∅.
Proof.
  destruct (initialize_outcomes pyrogram_half_up lib_ok
              {| PyrogramTgCallsBackend.backend := backend_playing;
                 PyrogramTgCallsBackend.has_client := false |}
              12345 "hash" None) as (_ & _ & H).
  destruct H as (_ & H & _); [reflexivity | exact H].
Defined.

(** ** Commands *)

Lemma save_data_no_record (qm : QueueManager) (chat_id : Z) :
  get_queue qm chat_id = [] → py_str chat_id ∉ (save_data qm).*1.
Proof.
  intros He Hin.
  apply list_elem_of_fmap in Hin as ([key qd] & Hkey & Hin). simpl in Hkey.
  destruct (save_data_entry qm key qd Hin) as (k & q & Hq & Hne & -> & _).
  apply py_str_inj in Hkey as <-.
  unfold get_queue in He. rewrite Hq in He. simpl in He. done.
Qed.

(** X23. The [stop] command answers that nothing is configured when there
    is no initialised backend, and that the chat is not in a voice chat
    when it is not joined; in both cases nothing changes.  On a joined
    chat it answers [stopped]: the chat has left the call, its queue is
    gone and has no record in the saved data, and the queues of the other
    chats are untouched.  It never answers that stopping failed. *)
Theorem stop_command (lib : PyTgCalls) (s : VoiceChatNativeMod.State)
    (chat_id : Z) :
  let r := VoiceChatNativeMod.stop lib s chat_id in
  r.1 ≠ VoiceChatNativeMod.failed_to_stop ∧
  (VoiceChatNativeMod._check_backend s = false →
     r = (VoiceChatNativeMod.not_configured, s)) ∧
  (∀ b, VoiceChatNativeMod.backend s = Some b → is_initialized b = true →
        is_in_call b chat_id = false →
        r = (VoiceChatNativeMod.not_in_voice_chat, s)) ∧
  (∀ b, VoiceChatNativeMod.backend s = Some b → is_initialized b = true →
        is_in_call b chat_id = true →
        r.1 = VoiceChatNativeMod.stopped ∧
        (∃ b', VoiceChatNativeMod.backend r.2 = Some b' ∧
               is_in_call b' chat_id = false) ∧
        get_queue (VoiceChatNativeMod.queue_manager r.2) chat_id = [] ∧
        (py_str chat_id ∉ (default [] (VoiceChatNativeMod.db r.2)).*1) ∧
        ∀ d, d ≠ chat_id →
             get_queue (VoiceChatNativeMod.queue_manager r.2) d
             = get_queue (VoiceChatNativeMod.queue_manager s) d).
Proof.
  cbv zeta. unfold VoiceChatNativeMod.stop, VoiceChatNativeMod._check_backend.
  destruct (VoiceChatNativeMod.backend s) as [b|] eqn:Hb; simpl.
  2: { split_and!; done. }
  destruct (is_initialized b) eqn:Hi; simpl.
  2: { split_and!; try done; intros b0 [= <-]; congruence. }
  destruct (is_in_call b chat_id) eqn:Hin; simpl.
  2: { split_and!; try done; intros b0 [= <-]; congruence. }
  assert (Hstop : ∃ b', stop_stream lib b chat_id = (true, b') ∧
                        is_in_call b' chat_id = false).
  { apply bool_decide_eq_true in Hin as [info Hinfo].
    destruct (stop_stream_joined lib b chat_id info Hinfo) as (H1 & H2 & _).
    destruct (leave_voice_chat_joined lib b chat_id info Hinfo) as (_ & H3 & _).
    destruct (stop_stream lib b chat_id) as [ok b']. simpl in *. subst ok.
    exists b'. split; [done|].
    apply bool_decide_eq_false. rewrite H2, H3, lookup_delete_eq.
    by intros [? ?]. }
  destruct Hstop as (b' & -> & Hout).
  destruct (clear_queue_lookup (VoiceChatNativeMod.queue_manager s) chat_id)
    as [Hq _].
  assert (Hempty : get_queue
            (clear_queue (VoiceChatNativeMod.queue_manager s) chat_id) chat_id
            = []) by (unfold get_queue; by rewrite Hq).
  split_and!; try done; intros b0 [= <-] ? ?; [congruence|].
  cbn [fst snd].
  split; [done|]. split; [by exists b'|]. split; [done|]. split.
  - by apply save_data_no_record.
  - intros d Hd. unfold get_queue. simpl. by rewrite lookup_delete_ne.
Qed.

Lemma stop_command_witness :
  (VoiceChatNativeMod.stop lib_failing module_playing 7).1
  = VoiceChatNativeMod.stopped ∧
  get_queue
    (VoiceChatNativeMod.queue_manager
       (VoiceChatNativeMod.stop lib_failing module_playing 7).2) 7 = [].
Proof.
  destruct (stop_command lib_failing module_playing 7) as (_ & _ & _ & H).
  destruct (H backend_playing) as (H1 & _ & H2 & _); [reflexivity.. |].
  split; [exact H1 | exact H2].
Defined.

(** X24. The [repeat] command toggles: it answers by the new value of the
    flag, a second [repeat] gives the other answer and brings the flag
    back to what it read before, and neither touches the items or the
    cursor of any chat. *)
Theorem repeat_command_twice (s : VoiceChatNativeMod.State) (chat_id : Z) :
  let r1 := VoiceChatNativeMod.repeat s chat_id in
  let r2 := VoiceChatNativeMod.repeat r1.2 chat_id in
  let before := is_repeat_enabled (VoiceChatNativeMod.queue_manager s) chat_id in
  r1.1 = (if before then VoiceChatNativeMod.repeat_disabled
          else VoiceChatNativeMod.repeat_enabled) ∧
  is_repeat_enabled (VoiceChatNativeMod.queue_manager r1.2) chat_id
  = negb before ∧
  r2.1 = (if before then VoiceChatNativeMod.repeat_enabled
          else VoiceChatNativeMod.repeat_disabled) ∧
  is_repeat_enabled (VoiceChatNativeMod.queue_manager r2.2) chat_id = before ∧
  _queues (VoiceChatNativeMod.queue_manager r2.2)
  = _queues (VoiceChatNativeMod.queue_manager s) ∧
  _current_playing (VoiceChatNativeMod.queue_manager r2.2)
  = _current_playing (VoiceChatNativeMod.queue_manager s) ∧
  VoiceChatNativeMod.db r2.2
  = save_queues (VoiceChatNativeMod.queue_manager r2.2) (VoiceChatNativeMod.db s).
Proof.
  cbv zeta. unfold VoiceChatNativeMod.repeat. cbn [fst snd].
  unfold VoiceChatNativeMod.with_saved_queues.
  cbn [VoiceChatNativeMod.queue_manager VoiceChatNativeMod.db].
  assert (Hset : ∀ qm v, is_repeat_enabled (set_repeat qm chat_id v) chat_id = v).
  { intros qm v. unfold is_repeat_enabled. simpl. by rewrite lookup_insert_eq. }
  rewrite !Hset.
  destruct (is_repeat_enabled (VoiceChatNativeMod.queue_manager s) chat_id);
    split_and!; done.
Qed.

(** X25. The [clearqueue] command removes from the saved data the record
    of its chat and nothing else: what is saved afterwards is what saving
    the queues before the command would have written, without that
    chat. *)
Theorem clearqueue_command (s : VoiceChatNativeMod.State) (chat_id : Z)
    (key : string) (qd : QueueData) :
  let r := VoiceChatNativeMod.clearqueue s chat_id in
  r.1 = VoiceChatNativeMod.queue_cleared ∧
  get_current (VoiceChatNativeMod.queue_manager r.2) chat_id = None ∧
  ((key, qd) ∈ default [] (VoiceChatNativeMod.db r.2) ↔
   (key, qd) ∈ save_data (VoiceChatNativeMod.queue_manager s) ∧
   key ≠ py_str chat_id).
Proof.
  cbv zeta.
  unfold VoiceChatNativeMod.clearqueue, VoiceChatNativeMod.with_saved_queues.
  cbn [fst snd VoiceChatNativeMod.queue_manager VoiceChatNativeMod.db].
  set (qm := VoiceChatNativeMod.queue_manager s).
  destruct (clear_queue_lookup qm chat_id) as [Hq Hc].
  split; [done|]. split.
  { unfold get_current, get_queue. by rewrite Hq. }
  unfold save_queues. cbn [default from_option id].
  rewrite !elem_of_save_data. split.
  - intros (k & q & Hk & Hne & -> & ->).
    assert (k ≠ chat_id) by (intros ->; congruence).
    simpl in Hk. rewrite lookup_delete_ne in Hk by done.
    split; [|by intros ?%py_str_inj].
    exists k, q. split_and!; try done.
    unfold current_index, is_repeat_enabled. simpl.
    by rewrite lookup_delete_ne by done.
  - intros [(k & q & Hk & Hne & -> & ->) Hkey].
    assert (k ≠ chat_id) by (intros ->; done).
    exists k, q. split_and!; try done.
    + simpl. by rewrite lookup_delete_ne by done.
    + unfold current_index, is_repeat_enabled. simpl.
      by rewrite lookup_delete_ne by done.
Qed.

(** X26. The [pause] command acts only on a chat that is playing, and the
    [resume] command only on a chat that is paused: otherwise they answer
    so and change nothing.  On a playing chat, with a library that
    accepts both calls, [pause] answers [paused] and a following [resume]
    answers [resumed] and gives back the module as it was. *)
Theorem pause_resume_commands (ctl : PyrogramTgCallsBackend.Control)
    (s : VoiceChatNativeMod.State) (b : Backend) (chat_id : Z) :
  VoiceChatNativeMod.backend s = Some b → is_initialized b = true →
  (is_playing b chat_id = false →
     VoiceChatNativeMod.pause ctl s chat_id
     = (VoiceChatNativeMod.not_in_voice_chat, s)) ∧
  (PyrogramTgCallsBackend.is_paused b chat_id = false →
     VoiceChatNativeMod.resume ctl s chat_id
     = (VoiceChatNativeMod.not_paused, s)) ∧
  (is_playing b chat_id = true → has_pytgcalls b = true →
   PyrogramTgCallsBackend.has_pause_stream ctl = true →
   PyrogramTgCallsBackend.pause_answer ctl chat_id = Return tt →
   PyrogramTgCallsBackend.has_resume_stream ctl = true →
   PyrogramTgCallsBackend.resume_answer ctl chat_id = Return tt →
     (VoiceChatNativeMod.pause ctl s chat_id).1 = VoiceChatNativeMod.paused ∧
     VoiceChatNativeMod.resume ctl (VoiceChatNativeMod.pause ctl s chat_id).2
       chat_id
     = (VoiceChatNativeMod.resumed, s)).
Proof.
  intros Hb Hi.
  unfold VoiceChatNativeMod.pause, VoiceChatNativeMod.resume,
    VoiceChatNativeMod._check_backend.
  rewrite Hb, Hi. cbn [negb].
  split; [by intros ->|]. split; [by intros ->|].
  intros Hplay Hp Hhp Hpa Hhr Hra. rewrite Hplay. cbn [negb].
  assert (Hpause : ∃ b1,
    PyrogramTgCallsBackend.pause_stream ctl b chat_id = (true, b1) ∧
    is_initialized b1 = true ∧
    PyrogramTgCallsBackend.is_paused b1 chat_id = true ∧
    PyrogramTgCallsBackend.resume_stream ctl b1 chat_id = (true, b)).
  { destruct (is_playing_inv b chat_id Hplay) as (info & Hinfo & Hs & Hpaused).
    unfold PyrogramTgCallsBackend.pause_stream,
      PyrogramTgCallsBackend.resume_stream.
    rewrite Hinfo, Hp, Hhp, Hpa. simpl. eexists. split; [done|].
    unfold PyrogramTgCallsBackend.is_paused. simpl.
    rewrite lookup_insert_eq, Hp, Hhr, Hra. simpl.
    split; [done|]. split; [done|]. f_equal.
    unfold PyrogramTgCallsBackend.set_paused, with_active_calls. simpl.
    rewrite insert_insert_eq.
    destruct b as [bi bp bac biss blog], info as [j c p]. simpl in *. subst p.
    f_equal. by apply insert_id. }
  destruct Hpause as (b1 & -> & Hi1 & Hp1 & Hres).
  cbn [fst snd]. split; [done|].
  unfold VoiceChatNativeMod.with_backend.
  cbn [VoiceChatNativeMod.backend VoiceChatNativeMod.queue_manager
       VoiceChatNativeMod.db].
  rewrite Hi1, Hp1, Hres. cbn [negb]. f_equal.
  destruct s as [qm bk d]. simpl in *. by subst bk.
Qed.

Lemma pause_resume_commands_witness :
  VoiceChatNativeMod.resume ctl_old_api
    (VoiceChatNativeMod.pause ctl_old_api module_playing 7).2 7
  = (VoiceChatNativeMod.resumed, module_playing).
Proof.
  destruct (pause_resume_commands ctl_old_api module_playing backend_playing 7)
    as (_ & _ & H); [reflexivity.. |].
  destruct H as [_ H]; [reflexivity.. | exact H].
Defined.

(** X27. [_get_media_source] prefers the text of the command to the
    message replied to: a text that names YouTube is a platform source,
    whatever else there is; any other text that starts as an http or
    https URL is a direct URL; only a text that is neither lets the media
    of the replied message through. *)
Theorem get_media_source_precedence (args : string) (reply : option Message) :
  let r := VoiceChatNativeMod._get_media_source args reply in
  let names_youtube := str_in "youtube.com" args || str_in "youtu.be" args in
  let is_http := String.prefix "http://" args || String.prefix "https://" args in
  (names_youtube = true → r = Some (VoiceChatNativeMod.youtube args)) ∧
  (names_youtube = false → is_http = true →
     r = Some (VoiceChatNativeMod.url args)) ∧
  (names_youtube = false → is_http = false →
     r = match reply with
         | Some m =>
             if media m then Some (VoiceChatNativeMod.telegram m) else None
         | None => None
         end).
Proof.
  cbv zeta. unfold VoiceChatNativeMod._get_media_source.
  destruct args as [|c args]; [by split_and!|].
  cbn [String.eqb]. split_and!.
  - by intros ->.
  - by intros -> ->.
  - by intros -> ->.
Qed.

Lemma get_media_source_precedence_witness :
  VoiceChatNativeMod._get_media_source "see youtu.be/x" (Some voice_note)
  = Some (VoiceChatNativeMod.youtube "see youtu.be/x").
Proof.
  destruct (get_media_source_precedence "see youtu.be/x" (Some voice_note))
    as (H & _).
  apply H. reflexivity.
Defined.

Lemma _resolve_source_added_by (env : VoiceChatNativeMod.Resolvers)
    (st st' : Store) (source : VoiceChatNativeMod.Source)
    (metadata : option Metadata) (item : QueueItem) :
  VoiceChatNativeMod._resolve_source env st source metadata = (Some item, st') →
  added_by item = metadata_user_id metadata ∧ timestamp item = 0.
Proof.
  destruct source as [address|address|message]; simpl.
  - unfold YouTubeSourceResolver_resolve, create_temp_file.
    destruct (YT_DLP_AVAILABLE _); simpl; [|done].
    destruct (FFMPEG_AVAILABLE _); simpl; [|done].
    destruct (extract_info _ _) as [info|e]; [|done].
    destruct (_ <? _); [done|].
    destruct (download _ _) as [exts [[]|e]]; [|done].
    destruct (glob_dot _ _ _) as [|f fs]; [|destruct (negb (endswith f ".mp3"))];
      by intros [= <- <-].
  - unfold DirectURLSourceResolver_resolve, create_temp_file.
    destruct (aiohttp_installed _); simpl; [|done].
    destruct (head_check _ _); [done|].
    destruct (http_get _ _) as [response|e]; [|done].
    destruct (_ =? _); [|done].
    destruct (write_chunks _ _ _ _); [|done].
    by intros [= <- <-].
  - unfold TelegramMediaSourceResolver_resolve, create_temp_file.
    destruct (media message); simpl; [|done].
    destruct (_ <? _); [done|].
    destruct (message_plan message) as [[[[? ?] ?] ?]|]; [|done].
    destruct (String.eqb _ _); [done|].
    destruct (VoiceChatNativeMod.download_media _ _ _); [|done].
    by intros [= <- <-].
Qed.

(** The answer of [addm] and [addv], and the module as it is when the
    answer is sent, depend neither on the library nor on how far
    [_play_next] is unfolded. *)
Lemma add_media_answer_fuel (video : bool) (fuel fuel' : nat)
    (streaming : bool) (env : VoiceChatNativeMod.Resolvers)
    (lib lib' : PyTgCalls) (now later later' : Z)
    (m : VoiceChatNativeMod.Loaded) (message : VoiceChatNativeMod.Command) :
  let r := VoiceChatNativeMod.add_media video fuel streaming env lib now
             later m message in
  let r' := VoiceChatNativeMod.add_media video fuel' streaming env lib' now
              later' m message in
  VoiceChatNativeMod.answer r' = VoiceChatNativeMod.answer r ∧
  VoiceChatNativeMod.answered r' = VoiceChatNativeMod.answered r.
Proof.
  cbv zeta. unfold VoiceChatNativeMod.add_media.
  destruct (negb streaming); [done|].
  destruct (VoiceChatNativeMod.backend _) as [b|]; [|done].
  destruct (negb (is_initialized b)); [done|].
  destruct (VoiceChatNativeMod._get_media_source _ _) as [source|]; [|done].
  destruct (VoiceChatNativeMod._resolve_source _ _ _ _) as [[item|] st'];
    [|done].
  cbn [add_item]. by destruct (_ && _).
Qed.

(** What a run that answers [added_to_queue] has gone through. *)
Lemma add_media_added (video : bool) (fuel : nat) (streaming : bool)
    (env : VoiceChatNativeMod.Resolvers) (lib : PyTgCalls) (now later : Z)
    (m : VoiceChatNativeMod.Loaded) (message : VoiceChatNativeMod.Command)
    (t : string) (d position : Z) :
  let r := VoiceChatNativeMod.add_media video fuel streaming env lib now
             later m message in
  let qm := VoiceChatNativeMod.queue_manager (VoiceChatNativeMod.state m) in
  let chat_id := VoiceChatNativeMod.chat message in
  VoiceChatNativeMod.answer r = VoiceChatNativeMod.added_to_queue t d position →
  ∃ b item st',
    VoiceChatNativeMod.backend (VoiceChatNativeMod.state m) = Some b ∧
    added_by item = VoiceChatNativeMod.sender_id message ∧
    (video = true → is_video item = true) ∧
    t = title item ∧ d = duration item ∧
    position = (add_item qm chat_id item now).1 ∧
    VoiceChatNativeMod.answered r
    = {| VoiceChatNativeMod.state :=
           {| VoiceChatNativeMod.queue_manager :=
                (add_item qm chat_id item now).2;
              VoiceChatNativeMod.backend := Some b;
              VoiceChatNativeMod.db :=
                save_queues (add_item qm chat_id item now).2
                  (VoiceChatNativeMod.db (VoiceChatNativeMod.state m)) |};
         VoiceChatNativeMod.temp_manager := st';
         VoiceChatNativeMod.auto_play := VoiceChatNativeMod.auto_play m |} ∧
    VoiceChatNativeMod.returned r
    = if VoiceChatNativeMod.auto_play m && negb (is_playing b chat_id) then
        match _play_next fuel lib (disk st') later
                (add_item qm chat_id item now).2 b chat_id with
        | (_, Some (qm'', b'')) =>
            Some {| VoiceChatNativeMod.state :=
                      {| VoiceChatNativeMod.queue_manager := qm'';
                         VoiceChatNativeMod.backend := Some b'';
                         VoiceChatNativeMod.db :=
                           save_queues (add_item qm chat_id item now).2
                             (VoiceChatNativeMod.db
                                (VoiceChatNativeMod.state m)) |};
                    VoiceChatNativeMod.temp_manager := st';
                    VoiceChatNativeMod.auto_play :=
                      VoiceChatNativeMod.auto_play m |}
        | (_, None) => None
        end
      else Some (VoiceChatNativeMod.answered r).
Proof.
  cbv zeta. unfold VoiceChatNativeMod.add_media.
  destruct (negb streaming); [done|].
  destruct (VoiceChatNativeMod.backend _) as [b|]; [|done].
  destruct (negb (is_initialized b)); [done|].
  destruct (VoiceChatNativeMod._get_media_source _ _) as [source|]; [|done].
  destruct (VoiceChatNativeMod._resolve_source _ _ _ _) as [[item|] st'] eqn:Hres;
    [|done].
  apply _resolve_source_added_by in Hres as [Hby _]. simpl in Hby.
  cbn [add_item]. intros H.
  exists b, (if video then VoiceChatNativeMod.force_video item else item), st'.
  assert (Hmeta :
    added_by (if video then VoiceChatNativeMod.force_video item else item)
    = VoiceChatNativeMod.sender_id message ∧
    (video = true →
     is_video (if video then VoiceChatNativeMod.force_video item else item)
     = true)) by (by destruct video).
  destruct Hmeta as [Hby' Hv].
  destruct (_ && _); simpl in H; injection H as <- <- <-;
    split_and!; done.
Qed.

(** X28. When [addm] or [addv] answers anything but [added_to_queue], the
    handler returns right after the answer, however the library behaves,
    and the queues, the backend and the saved data are as they were; only
    the temporary files may have changed, and only after a failed
    download. *)
Theorem add_media_failure (video : bool) (fuel : nat) (streaming : bool)
    (env : VoiceChatNativeMod.Resolvers) (lib : PyTgCalls) (now later : Z)
    (m : VoiceChatNativeMod.Loaded) (message : VoiceChatNativeMod.Command) :
  let r := VoiceChatNativeMod.add_media video fuel streaming env lib now
             later m message in
  (∀ t d p, VoiceChatNativeMod.answer r
            ≠ VoiceChatNativeMod.added_to_queue t d p) →
  VoiceChatNativeMod.returned r = Some (VoiceChatNativeMod.answered r) ∧
  VoiceChatNativeMod.state (VoiceChatNativeMod.answered r)
  = VoiceChatNativeMod.state m ∧
  VoiceChatNativeMod.auto_play (VoiceChatNativeMod.answered r)
  = VoiceChatNativeMod.auto_play m ∧
  (VoiceChatNativeMod.answer r ≠ VoiceChatNativeMod.download_failed →
   VoiceChatNativeMod.answered r = m).
Proof.
  cbv zeta. unfold VoiceChatNativeMod.add_media. intros Hno.
  destruct (negb streaming); [done|].
  destruct (VoiceChatNativeMod.backend _) as [b|]; [|done].
  destruct (negb (is_initialized b)); [done|].
  destruct (VoiceChatNativeMod._get_media_source _ _) as [source|]; [|done].
  destruct (VoiceChatNativeMod._resolve_source _ _ _ _) as [[item|] st'];
    [|done].
  exfalso. cbn [add_item] in Hno.
  destruct (_ && _); simpl in Hno; by eapply Hno.
Qed.

Lemma add_media_failure_witness :
  VoiceChatNativeMod.returned
    (VoiceChatNativeMod.addm 5 true resolvers_ok lib_ok 100 101 loaded_playing
       {| VoiceChatNativeMod.args := "hello";
          VoiceChatNativeMod.reply_message := None;
          VoiceChatNativeMod.sender_id := 42;
          VoiceChatNativeMod.chat := 7 |})
  = Some loaded_playing.
Proof.
  destruct (add_media_failure false 5 true resolvers_ok lib_ok 100 101
              loaded_playing
              {| VoiceChatNativeMod.args := "hello";
                 VoiceChatNativeMod.reply_message := None;
                 VoiceChatNativeMod.sender_id := 42;
                 VoiceChatNativeMod.chat := 7 |}) as (H & _ & _ & H');
    [discriminate|].
  etrans; [exact H|]. apply (f_equal Some). apply H'. discriminate.
Defined.

(** X29. When [addm] or [addv] answers [added_to_queue], then by the time
    of the answer the entry has been put at the end of the chat's queue,
    stamped with the time of the append and with the sender; the answer
    carries its title, its duration and its position, which is the new
    length; [addv] has made it a video; the queues of the other chats and
    the backend are as they were, and the queues have been saved.  None
    of this depends on the library or on how [_play_next] fares.  When
    the handler returns, the items, the repeat flags, the saved data and
    the temporary files are as they were at the answer: what [_play_next]
    does to the cursor is not saved.  With repeat off the handler does
    return. *)
Theorem add_media_success (video : bool) (fuel : nat) (streaming : bool)
    (env : VoiceChatNativeMod.Resolvers) (lib : PyTgCalls) (now later : Z)
    (m : VoiceChatNativeMod.Loaded) (message : VoiceChatNativeMod.Command)
    (t : string) (d position : Z) :
  let r := VoiceChatNativeMod.add_media video fuel streaming env lib now
             later m message in
  let qm := VoiceChatNativeMod.queue_manager (VoiceChatNativeMod.state m) in
  let qm1 :=
    VoiceChatNativeMod.queue_manager
      (VoiceChatNativeMod.state (VoiceChatNativeMod.answered r)) in
  let chat_id := VoiceChatNativeMod.chat message in
  VoiceChatNativeMod.answer r = VoiceChatNativeMod.added_to_queue t d position →
  (∃ item,
     get_queue qm1 chat_id = get_queue qm chat_id ++ [item] ∧
     position = Z.of_nat (length (get_queue qm1 chat_id)) ∧
     title item = t ∧ duration item = d ∧ timestamp item = now ∧
     added_by item = VoiceChatNativeMod.sender_id message ∧
     (video = true → is_video item = true)) ∧
  (∀ other, other ≠ chat_id → get_queue qm1 other = get_queue qm other) ∧
  _current_playing qm1 = _current_playing qm ∧
  _repeat_mode qm1 = _repeat_mode qm ∧
  VoiceChatNativeMod.db (VoiceChatNativeMod.state (VoiceChatNativeMod.answered r))
  = save_queues qm1 (VoiceChatNativeMod.db (VoiceChatNativeMod.state m)) ∧
  VoiceChatNativeMod.backend
    (VoiceChatNativeMod.state (VoiceChatNativeMod.answered r))
  = VoiceChatNativeMod.backend (VoiceChatNativeMod.state m) ∧
  (∀ fuel' lib' later',
     let r' := VoiceChatNativeMod.add_media video fuel' streaming env lib' now
                 later' m message in
     VoiceChatNativeMod.answer r' = VoiceChatNativeMod.answer r ∧
     VoiceChatNativeMod.answered r' = VoiceChatNativeMod.answered r) ∧
  (∀ m', VoiceChatNativeMod.returned r = Some m' →
     _queues (VoiceChatNativeMod.queue_manager (VoiceChatNativeMod.state m'))
     = _queues qm1 ∧
     _repeat_mode (VoiceChatNativeMod.queue_manager (VoiceChatNativeMod.state m'))
     = _repeat_mode qm1 ∧
     VoiceChatNativeMod.db (VoiceChatNativeMod.state m')
     = VoiceChatNativeMod.db
         (VoiceChatNativeMod.state (VoiceChatNativeMod.answered r)) ∧
     VoiceChatNativeMod.temp_manager m'
     = VoiceChatNativeMod.temp_manager (VoiceChatNativeMod.answered r)) ∧
  (is_repeat_enabled qm chat_id = false →
   (length (get_queue qm1 chat_id) < fuel)%nat →
   is_Some (VoiceChatNativeMod.returned r)).
Proof.
  intros r qm qm1 chat_id H.
  destruct (add_media_added video fuel streaming env lib now later m message
              t d position H)
    as (b & item & st' & Hb & Hby & Hv & -> & -> & -> & Hans & Hret).
  fold r qm chat_id in Hans, Hret.
  assert (Hqm1 : qm1 = (add_item qm chat_id item now).2)
    by (subst qm1; by rewrite Hans).
  assert (Hq : get_queue qm1 chat_id
               = get_queue qm chat_id ++ [set_timestamp now item]).
  { rewrite Hqm1. unfold get_queue at 1. simpl. by rewrite lookup_insert_eq. }
  assert (Hdb : VoiceChatNativeMod.db
                  (VoiceChatNativeMod.state (VoiceChatNativeMod.answered r))
                = save_queues qm1
                    (VoiceChatNativeMod.db (VoiceChatNativeMod.state m)))
    by (rewrite Hqm1, Hans; done).
  assert (Htmp : VoiceChatNativeMod.temp_manager (VoiceChatNativeMod.answered r)
                 = st') by (by rewrite Hans).
  split_and!.
  - exists (set_timestamp now item). rewrite Hq. simpl. split_and!; done.
  - intros other Hne. rewrite Hqm1. unfold get_queue at 1. simpl.
    by rewrite lookup_insert_ne.
  - by rewrite Hqm1.
  - by rewrite Hqm1.
  - done.
  - rewrite Hans. by rewrite Hb.
  - intros fuel' lib' later'. apply add_media_answer_fuel.
  - intros m' Hm'. rewrite Hret in Hm'. clear Hret. rewrite <- Hqm1 in Hm'.
    destruct (_ && _).
    + destruct (_play_next _ _ _ _ _ _ _) as [n [[qm'' b'']|]] eqn:Hplay;
        [|done].
      injection Hm' as <-.
      destruct (_play_next_frame _ _ _ _ _ _ _ _ _ _ Hplay) as (Hq' & Hr' & _).
      rewrite Hdb, Htmp. done.
    + injection Hm' as <-. done.
  - intros Hrep Hfuel. rewrite Hret. rewrite <- Hqm1.
    destruct (_ && _); [|done].
    destruct (_play_next_returns_without_repeat lib (disk st') later chat_id
                fuel qm1 b) as (n & [qm'' b''] & -> & _); [|done|done].
    rewrite Hqm1. done.
Qed.

Lemma add_media_success_witness :
  is_Some
    (VoiceChatNativeMod.returned
       (VoiceChatNativeMod.addm 5 true resolvers_ok lib_ok 100 101 loaded_idle
          add_url)).
Proof.
  destruct (add_media_success false 5 true resolvers_ok lib_ok 100 101
              loaded_idle add_url "a.mp3" 0 3) as (_ & _ & _ & _ & _ & _ & _ & _ & H);
    [vm_compute; reflexivity|].
  apply H; [vm_compute; reflexivity | vm_compute; lia].
Defined.
